(** * nile.common: command construction and response parsing

    A shallow embedding of [src/nile/common.py] and the proofs of its
    specification.

    Representation choices.
    - A Python [str] appears in two forms. What a child process writes and
      what the output parser reads is a [text]: a sequence of code points
      of any size, each an [N]. The parameters of a call, the tokens of a
      command, file names and file contents are [string]s: sequences of
      code points below 256, on which the only characters [int] treats as
      blanks beyond ASCII are U+0085 and U+00A0 and the only decimal
      digits are [0-9].
    - The decimal digits and the blanks of Unicode are those of version
      14.0 of the standard.
    - A Python [bytes] value is a [list byte].
    - Python integers are [Z].
    - Exceptions are values of [exn]; a computation that may raise has type
      [result A]. *)

From Stdlib Require Import ZArith Ascii String List Lia Bool.
From Stdlib.Strings Require Import Byte.
From stdpp Require Import base option list gmap strings pretty.

Local Open Scope Z_scope.

(** ** Exceptions and fallible computations *)

Inductive exn : Type :=
| ValueError
| TypeError
| AttributeError
| AssertionError
| UnicodeDecodeError
| OSError.

Inductive result (A : Type) : Type :=
| Ok (a : A)
| Raise (e : exn).
Arguments Ok {A} a.
Arguments Raise {A} e.

Global Instance result_ret : MRet result := fun A a => Ok a.

Global Instance result_bind : MBind result := fun A B k r =>
  match r with
  | Ok a => k a
  | Raise e => Raise e
  end.

Fixpoint rmap {A B : Type} (f : A -> result B) (l : list A) : result (list B) :=
  match l with
  | [] => Ok []
  | a :: l' => b ← f a; bs ← rmap f l'; Ok (b :: bs)
  end.

(** ** Characters *)

Module Char.

Definition code (c : ascii) : N := N_of_ascii c.

Definition between (lo hi : N) (c : ascii) : bool :=
  ((lo <=? code c) && (code c <=? hi))%N.

(** [0-9] *)
Definition is_digit (c : ascii) : bool := between 48 57 c.

(** The characters [[0-9a-f]]. *)
Definition is_re_hex (c : ascii) : bool := is_digit c || between 97 102 c.

(** The blanks [int] skips around a literal: tab, line feed, vertical tab,
    form feed, carriage return, space, and the two blanks of the upper
    half of the range, U+0085 and U+00A0. *)
Definition is_int_space (c : ascii) : bool :=
  between 9 13 c || (code c =? 32)%N || (code c =? 133)%N || (code c =? 160)%N.

(** Value of a character as a digit: [0-9] are 0..9, letters of either
    case are 10..35. *)
Definition digit_value (c : ascii) : option Z :=
  if is_digit c then Some (Z.of_N (code c) - 48)
  else if between 97 122 c then Some (Z.of_N (code c) - 87)
  else if between 65 90 c then Some (Z.of_N (code c) - 55)
  else None.

Definition eqb (a b : ascii) : bool := (code a =? code b)%N.

End Char.

(** ** Strings *)

Module Str.

Fixpoint startswith (p s : string) : bool :=
  match p, s with
  | EmptyString, _ => true
  | String a p', String b s' => Char.eqb a b && startswith p' s'
  | String _ _, EmptyString => false
  end.

Fixpoint drop (n : nat) (s : string) : string :=
  match n, s with
  | O, _ => s
  | S n', String _ s' => drop n' s'
  | S _, EmptyString => EmptyString
  end.

Fixpoint all (f : ascii -> bool) (s : string) : bool :=
  match s with
  | EmptyString => true
  | String c s' => f c && all f s'
  end.

(** The longest prefix of [s] of at most [n] characters of class [f]. *)
Fixpoint take_while (f : ascii -> bool) (n : nat) (s : string) : string :=
  match n, s with
  | S n', String c s' => if f c then String c (take_while f n' s') else EmptyString
  | _, _ => EmptyString
  end.

Fixpoint drop_while (f : ascii -> bool) (s : string) : string :=
  match s with
  | String c s' => if f c then drop_while f s' else s
  | EmptyString => EmptyString
  end.

End Str.

(** ** The builtin [int] on [str] arguments

    [int(s)] and [int(s, 16)] as the module uses them: blanks around the
    literal are skipped, one sign is allowed, base 16 accepts the prefix
    [0x] or [0X] (and one underscore after it), digits may be separated by
    single underscores, and anything else raises [ValueError]. The cap that
    interpreters from 3.11 on put on the length of a decimal literal is
    not represented. *)

Module PyInt.

Inductive radix : Type := Dec | Hex.

Definition base (r : radix) : Z :=
  match r with Dec => 10 | Hex => 16 end.

Definition digit (r : radix) (c : ascii) : option Z :=
  match Char.digit_value c with
  | Some d => if d <? base r then Some d else None
  | None => None
  end.

(** The digits after the first one: [acc] is the value read so far. The
    result is the value and the unread rest of the text. *)
Fixpoint more_digits (r : radix) (acc : Z) (s : string) : option (Z * string) :=
  match s with
  | EmptyString => Some (acc, s)
  | String c s' =>
      match digit r c with
      | Some d => more_digits r (acc * base r + d) s'
      | None =>
          if Char.eqb c "_"
          then match s' with
               | String c2 s'' =>
                   match digit r c2 with
                   | Some d => more_digits r (acc * base r + d) s''
                   | None => None
                   end
               | EmptyString => None
               end
          else Some (acc, s)
      end
  end.

Definition digits (r : radix) (s : string) : option (Z * string) :=
  match s with
  | String c s' =>
      match digit r c with
      | Some d => more_digits r d s'
      | None => None
      end
  | EmptyString => None
  end.

Definition skip_sign (s : string) : bool * string :=
  match s with
  | String c s' =>
      if Char.eqb c "-" then (true, s')
      else if Char.eqb c "+" then (false, s')
      else (false, s)
  | EmptyString => (false, s)
  end.

Definition skip_prefix (r : radix) (s : string) : string :=
  match r with
  | Dec => s
  | Hex =>
      if Str.startswith "0x" s || Str.startswith "0X" s
      then let s' := Str.drop 2 s in
           if Str.startswith "_" s' then Str.drop 1 s' else s'
      else s
  end.

Definition parse (r : radix) (s : string) : option Z :=
  let '(neg, s1) := skip_sign (Str.drop_while Char.is_int_space s) in
  match digits r (skip_prefix r s1) with
  | Some (v, rest) =>
      if Str.all Char.is_int_space rest
      then Some (if neg then - v else v)
      else None
  | None => None
  end.

(** [int(s)] and [int(s, 16)], raising [ValueError] on a malformed literal. *)
Definition int (r : radix) (s : string) : result Z :=
  match parse r s with
  | Some v => Ok v
  | None => Raise ValueError
  end.

End PyInt.

(** ** Hexadecimal numerals among the strings *)

Module HexText.

(** [0x] followed by 1 to 64 characters of [[0-9a-f]]. *)
Definition is_hex_text (m : string) : bool :=
  Str.startswith "0x" m
  && Str.all Char.is_re_hex (Str.drop 2 m)
  && (1 <=? String.length (Str.drop 2 m))%nat
  && (String.length (Str.drop 2 m) <=? 64)%nat.

Fixpoint digits_value (acc : Z) (ds : string) : Z :=
  match ds with
  | EmptyString => acc
  | String c ds' => digits_value (acc * 16 + default 0 (Char.digit_value c)) ds'
  end.

Definition value (m : string) : Z := digits_value 0 (Str.drop 2 m).

End HexText.

(** ** Text of any code point *)

Module Text.

(** The text of a string: the codes of its characters. *)
Definition of_string (s : string) : list N :=
  map N_of_ascii (list_ascii_of_string s).

Fixpoint startswith (p s : list N) : bool :=
  match p, s with
  | [], _ => true
  | a :: p', b :: s' => (a =? b)%N && startswith p' s'
  | _ :: _, [] => false
  end.

(** The longest prefix of [s] of at most [n] characters of class [f]. *)
Fixpoint take_while (f : N -> bool) (n : nat) (s : list N) : list N :=
  match n, s with
  | S n', c :: s' => if f c then c :: take_while f n' s' else []
  | _, _ => []
  end.

(** [needle in hay]. *)
Fixpoint contains (needle hay : list N) : bool :=
  startswith needle hay ||
  match hay with
  | _ :: hay' => contains needle hay'
  | [] => false
  end.

End Text.

(** ** Unicode decimal digits and blanks *)

Module Unicode.

(** The decimal digits come in runs of ten, 0 to 9 in order; these are
    the code points of the zeros. *)
Definition decimal_zeros : list N :=
  [48; 1632; 1776; 1984; 2406; 2534; 2662; 2790; 2918; 3046; 3174; 3302;
   3430; 3558; 3664; 3792; 3872; 4160; 4240; 6112; 6160; 6470; 6608; 6784;
   6800; 6992; 7088; 7232; 7248; 42528; 43216; 43264; 43472; 43504; 43600;
   44016; 65296; 66720; 68912; 69734; 69872; 69942; 70096; 70384; 70736;
   70864; 71248; 71360; 71472; 71904; 72016; 72784; 73040; 73120; 92768;
   92864; 93008; 120782; 120792; 120802; 120812; 120822; 123200; 123632;
   125264; 130032]%N.

(** The value of a character as a decimal digit, if it is one: the class
    [\d] of a pattern on [str], and the digits [int] reads. *)
Definition decimal (c : N) : option N :=
  match find (fun z => (z <=? c) && (c <? z + 10))%N decimal_zeros with
  | Some z => Some (c - z)%N
  | None => None
  end.

Definition is_decimal (c : N) : bool :=
  match decimal c with Some _ => true | None => false end.

(** The blanks from U+007F up. *)
Definition blanks : list N :=
  [133; 160; 5760; 8192; 8193; 8194; 8195; 8196; 8197; 8198; 8199; 8200;
   8201; 8202; 8232; 8233; 8239; 8287; 12288]%N.

Definition is_blank (c : N) : bool := existsb (N.eqb c) blanks.

(** What [int] does to a text that is not pure ASCII before it reads it:
    a blank becomes a space, a decimal digit becomes the ASCII digit of
    its value, a character below U+007F stays, and at any other character
    the text is cut after a question mark. *)
Fixpoint transform (t : list N) : string :=
  match t with
  | [] => ""
  | c :: t' =>
      if (c <? 127)%N then String (ascii_of_N c) (transform t')
      else if is_blank c then String " " (transform t')
      else match decimal c with
           | Some d => String (ascii_of_N (48 + d)) (transform t')
           | None => "?"
           end
  end.

Definition to_ascii (t : list N) : string :=
  if forallb (fun c => (c <? 128)%N) t
  then string_of_list_ascii (map ascii_of_N t)
  else transform t.

(** [int(t)] and [int(t, 16)] on a text. *)
Definition int (r : PyInt.radix) (t : list N) : result Z :=
  PyInt.int r (to_ascii t).

End Unicode.

(** ** [re.findall("0x[\da-f]{1,64}", text)] *)

Module Re.

(** The class [[\da-f]] of the two patterns of the module: on [str], [\d]
    is every decimal digit of Unicode. *)
Definition is_class (c : N) : bool :=
  Unicode.is_decimal c || ((97 <=? c) && (c <=? 102))%N.

(** The class [[0-9a-f]] of the specification. *)
Definition is_ascii_hex (c : N) : bool :=
  ((48 <=? c) && (c <=? 57) || (97 <=? c) && (c <=? 102))%N.

Section Scan.

(** The class of the characters that follow [0x]. *)
Variable cls : N -> bool.

(** A match at the start of [s]: the two characters [0x] and then as many
    characters of the class as there are, 64 at most and one at least. *)
Definition match_at (s : list N) : option (list N) :=
  if Text.startswith [48; 120]%N s
  then match Text.take_while cls 64 (drop 2 s) with
       | [] => None
       | ds => Some ([48; 120]%N ++ ds)
       end
  else None.

(** The scan of [re.findall]: positions are tried from left to right, a
    match is recorded at the first position that has one, and the scan
    resumes after it. [skip] counts the positions still covered by the
    last match. *)
Fixpoint scan_from (skip : nat) (s : list N) : list (list N) :=
  match s with
  | [] => []
  | _ :: s' =>
      match skip with
      | S k => scan_from k s'
      | O =>
          match match_at s with
          | Some m => m :: scan_from (length m - 1) s'
          | None => scan_from 0 s'
          end
      end
  end.

Definition scan (s : list N) : list (list N) := scan_from 0 s.

(** A token: [0x] followed by 1 to 64 characters of the class. *)
Definition is_token (m : list N) : bool :=
  Text.startswith [48; 120]%N m
  && forallb cls (drop 2 m)
  && (1 <=? length (drop 2 m))%nat
  && (length (drop 2 m) <=? 64)%nat.

(** The matches of a text in order of appearance: at each position, the
    longest token that starts there is a match and the search goes on
    behind it; a position where no token starts is passed over. *)
Inductive Matches : list N -> list (list N) -> Prop :=
| Matches_end : Matches [] []
| Matches_pass c s ms :
    (forall m r, is_token m = true -> c :: s <> m ++ r) ->
    Matches s ms ->
    Matches (c :: s) ms
| Matches_hit m r ms :
    is_token m = true ->
    (forall m' r', is_token m' = true -> m ++ r = m' ++ r' ->
                   (length m' <= length m)%nat) ->
    Matches r ms ->
    Matches (m ++ r) (m :: ms).

End Scan.

Definition match_here : list N -> option (list N) := match_at is_class.

Definition findall : list N -> list (list N) := scan is_class.

(** The value of a character of the class as a hexadecimal digit. *)
Definition digit_value (c : N) : Z :=
  match Unicode.decimal c with
  | Some d => Z.of_N d
  | None => Z.of_N c - 87
  end.

(** The integer a match denotes: its digits read in base 16, most
    significant first. *)
Fixpoint digits_value (acc : Z) (ds : list N) : Z :=
  match ds with
  | [] => acc
  | c :: ds' => digits_value (acc * 16 + digit_value c) ds'
  end.

Definition token_value (m : list N) : Z := digits_value 0 (drop 2 m).

(** A character that is no decimal digit outside ASCII. On a text of
    such characters the two classes agree. *)
Definition is_plain (c : N) : bool :=
  negb (Unicode.is_decimal c) || ((48 <=? c) && (c <=? 57))%N.

End Re.

(** ** Parameter values and their encoding *)

Unset Elimination Schemes.

(** The values callers pass as call, invoke and deploy parameters:
    integers, text, and lists and tuples of them. *)
Inductive pyval : Type :=
| VInt (z : Z)
| VStr (s : string)
| VList (l : list pyval)
| VTuple (l : list pyval).

(** What [stringify] returns: a [str], or a list of such results. The
    elements of a command list are of this type too. *)
Inductive strs : Type :=
| SStr (s : string)
| SList (l : list strs).

Set Elimination Schemes.

(** Induction on values, with the hypothesis for the elements of a list
    or tuple. *)
Definition pyval_ind (P : pyval -> Prop)
    (Hint : forall z, P (VInt z)) (Hstr : forall s, P (VStr s))
    (Hlist : forall l, Forall P l -> P (VList l))
    (Htuple : forall l, Forall P l -> P (VTuple l)) : forall x, P x :=
  fix go (x : pyval) : P x :=
    let all := fix all (l : list pyval) : Forall P l :=
      match l return Forall P l with
      | [] => List.Forall_nil P
      | y :: l' => @List.Forall_cons pyval P y l' (go y) (all l')
      end in
    match x with
    | VInt z => Hint z
    | VStr s => Hstr s
    | VList l => Hlist l (all l)
    | VTuple l => Htuple l (all l)
    end.

Fixpoint pack_bytes (acc : Z) (text : string) : Z :=
  match text with
  | EmptyString => acc
  | String c text' => pack_bytes (acc * 256 + Z.of_N (Char.code c)) text'
  end.

(** Modelled from the spec: [nile.utils.str_to_felt], which packs the
    bytes of a short string into one integer, first byte most
    significant. Each character contributes the byte of its code. *)
Definition str_to_felt (text : string) : Z := pack_bytes 0 text.


Definition succeeds {A : Type} (r : result A) : bool :=
  match r with Ok _ => true | Raise _ => false end.

(** [int(param)] for a parameter value. *)
Definition int_of (param : pyval) : result Z :=
  match param with
  | VInt z => Ok z
  | VStr s => PyInt.int PyInt.Dec s
  | VList _ | VTuple _ => Raise TypeError
  end.

(** [assert param.startswith("0x"); int(param, 16)]. *)
Definition hex_of (param : pyval) : result Z :=
  match param with
  | VStr s =>
      if Str.startswith "0x" s then PyInt.int PyInt.Hex s
      else Raise AssertionError
  | VInt _ | VList _ | VTuple _ => Raise AttributeError
  end.

Definition is_string (param : pyval) : bool :=
  let is_int := succeeds (int_of param) in
  let is_hex := succeeds (hex_of param) in
  negb is_int && negb is_hex.

Definition is_alias (param : pyval) : bool := is_string param.

(** On a list or tuple the function maps itself over the elements and
    returns the list of the results. On text, [str(x)] is [x]; on an
    integer, [is_string] is false and [str(x)] is its decimal numeral. *)
Fixpoint stringify (x : pyval) (process_short_strings : bool) : strs :=
  match x with
  | VList l | VTuple l =>
      SList (map (fun y => stringify y process_short_strings) l)
  | VStr s =>
      if process_short_strings && is_string x
      then SStr (pretty (str_to_felt s))
      else SStr s
  | VInt z => SStr (pretty z)
  end.

Definition prepare_params (params : option pyval) : strs :=
  let params := match params with None => VList [] | Some v => v end in
  stringify params true.

(** The classification in the words of the specification. *)
Inductive kind : Type := Integer | HexAddress | ShortString.

Definition classify (s : string) : kind :=
  if succeeds (PyInt.int PyInt.Dec s) then Integer
  else if Str.startswith "0x" s && succeeds (PyInt.int PyInt.Hex s) then HexAddress
  else ShortString.

(** Reading a result of [stringify] as a parameter value again. *)
Fixpoint as_val (v : strs) : pyval :=
  match v with
  | SStr s => VStr s
  | SList l => VList (map as_val l)
  end.

Definition is_scalar (x : pyval) : bool :=
  match x with VInt _ | VStr _ => true | VList _ | VTuple _ => false end.

Definition is_token (v : strs) : bool :=
  match v with SStr _ => true | SList _ => false end.

(** A flat sequence of string tokens. *)
Definition flat (v : strs) : bool :=
  match v with SStr _ => false | SList l => forallb is_token l end.

(** The scalars of a value, and the tokens of a result, left to right. *)
Fixpoint scalars (x : pyval) : list pyval :=
  match x with
  | VList l | VTuple l => concat (map scalars l)
  | _ => [x]
  end.

Fixpoint tokens (v : strs) : list string :=
  match v with
  | SStr s => [s]
  | SList l => concat (map tokens l)
  end.

(** The shape of a value: the nesting of its sequences, without the
    difference between lists and tuples and without the scalars. *)
Unset Elimination Schemes.

Inductive shape : Type :=
| Leaf
| Node (l : list shape).

Set Elimination Schemes.

Fixpoint shape_of_val (x : pyval) : shape :=
  match x with
  | VList l | VTuple l => Node (map shape_of_val l)
  | _ => Leaf
  end.

Fixpoint shape_of_strs (v : strs) : shape :=
  match v with
  | SStr _ => Leaf
  | SList l => Node (map shape_of_strs l)
  end.

(** The encoding of a value in the words of the specification: an
    integer is its decimal numeral, a ShortString is the decimal numeral
    of its felt, any other text is itself, and a list or tuple is the list
    of the encodings of its elements. *)
Fixpoint encoding (x : pyval) : strs :=
  match x with
  | VInt z => SStr (pretty z)
  | VStr s =>
      SStr (match classify s with
            | ShortString => pretty (str_to_felt s)
            | Integer | HexAddress => s
            end)
  | VList l | VTuple l => SList (map encoding l)
  end.

(** The one-character texts of a string, in order. *)
Fixpoint characters (s : string) : list strs :=
  match s with
  | EmptyString => []
  | String c s' => SStr (String c "") :: characters s'
  end.

(** What a parameter sequence contributes to a command: the encodings of
    its elements. A bare scalar in the place of a sequence contributes
    the characters of its encoding, one by one. *)
Definition encoded_sequence (i : pyval) : list strs :=
  match i with
  | VList l | VTuple l => map encoding l
  | VInt _ | VStr _ =>
      match encoding i with
      | SStr s => characters s
      | SList l => l
      end
  end.

(** ** Output parser *)

(** Modelled from the spec: [nile.utils.normalize_number], which turns a
    hex capture with its [0x] prefix into the integer it denotes, as
    [int(number, 16)] reads it. *)
Definition normalize_number (number : list N) : result Z :=
  Unicode.int PyInt.Hex number.

Definition parse_information (x : list N) : result (Z * Z) :=
  match Re.findall x with
  | [address; tx_hash] =>
      a ← normalize_number address;
      t ← normalize_number tx_hash;
      Ok (a, t)
  | _ => Raise ValueError
  end.

Definition get_addresses_from_string (text : list N) : result (gset Z) :=
  l ← rmap (Unicode.int PyInt.Hex) (Re.findall text);
  Ok (list_to_set l).

(** ** Module constants *)

Definition BUILD_DIRECTORY : string := "artifacts".
Definition ABIS_DIRECTORY : string := BUILD_DIRECTORY +:+ "/abis".
Definition NODE_FILENAME : string := "node.json".

(** ** Network configuration *)

Module Json.

Definition quote : ascii := "034"%char.
Definition backslash : ascii := "092"%char.
Definition newline : ascii := "010"%char.

Definition hex_lower (n : N) : ascii :=
  if (n <? 10)%N then ascii_of_N (48 + n) else ascii_of_N (87 + n).

(** The escape of one character in a JSON string as [json.dumps] writes
    it: only the printable ASCII characters other than the quote and the
    backslash stand for themselves. *)
Definition escape_char (c : ascii) : string :=
  let n := Char.code c in
  if (n =? 34)%N then String backslash (String quote "")
  else if (n =? 92)%N then String backslash (String backslash "")
  else if (n =? 10)%N then String backslash "n"
  else if (n =? 13)%N then String backslash "r"
  else if (n =? 9)%N then String backslash "t"
  else if (n =? 8)%N then String backslash "b"
  else if (n =? 12)%N then String backslash "f"
  else if Char.between 32 126 c then String c ""
  else String backslash
         ("u00" +:+ String (hex_lower (n / 16)) (String (hex_lower (n mod 16)) "")).

Fixpoint escape (s : string) : string :=
  match s with
  | EmptyString => ""
  | String c s' => escape_char c +:+ escape s'
  end.

Definition text (s : string) : string :=
  String quote (escape s +:+ String quote "").

Definition member (kv : string * string) : string :=
  String newline ("  " +:+ text kv.1 +:+ ": " +:+ text kv.2).

Fixpoint members (d : list (string * string)) : string :=
  match d with
  | [] => ""
  | [kv] => member kv
  | kv :: d' => member kv +:+ "," +:+ members d'
  end.

(** [json.dumps(d, indent=2)] for a dictionary from text to text, given
    as its items in insertion order. *)
Definition dumps_indent2 (d : list (string * string)) : string :=
  match d with
  | [] => "{}"
  | _ => "{" +:+ members d +:+ String newline "}"
  end.

End Json.

(** The literal [networks] of [get_gateways], in the order it is written. *)
Definition networks : list (string * string) :=
  [ ("localhost", "http://127.0.0.1:5050/");
    ("goerli2", "https://alpha4-2.starknet.io");
    ("integration", "https://external.integration.starknet.io") ].

Definition quoted (s : string) : string :=
  String Json.quote (s +:+ String Json.quote "").

(** The text of the default [node.json], line by line. *)
Definition default_node_json : string :=
  "{" +:+ String Json.newline
    ("  " +:+ quoted "localhost" +:+ ": " +:+ quoted "http://127.0.0.1:5050/" +:+ ",")
  +:+ String Json.newline
    ("  " +:+ quoted "goerli2" +:+ ": " +:+ quoted "https://alpha4-2.starknet.io" +:+ ",")
  +:+ String Json.newline
    ("  " +:+ quoted "integration" +:+ ": "
     +:+ quoted "https://external.integration.starknet.io")
  +:+ String Json.newline "}".

Section Gateways.

(** [json.load] on the text of a file; the development is parametric in
    the parser. *)
Variable json_load : string -> result (gmap string string).

(** The file system is a map from file names to file contents: opening
    an absent name for reading is [FileNotFoundError], opening a name for
    writing and writing a text binds the name to the text. The function
    returns its result and the file system it leaves. *)
Definition get_gateways (files : gmap string string)
  : result (gmap string string) * gmap string string :=
  match files !! NODE_FILENAME with
  | Some content => (json_load content, files)
  | None =>
      (Ok (list_to_map networks),
       <[NODE_FILENAME := Json.dumps_indent2 networks]> files)
  end.

End Gateways.

(** ** Network resolver *)

(** The formatting of [GATEWAYS.get(network)] in an f-string. *)
Definition fmt_get (GATEWAYS : gmap string string) (network : string) : string :=
  match GATEWAYS !! network with
  | Some url => url
  | None => "None"
  end.

(** The function returns [extra_param] and the environment it leaves. *)
Definition get_network_parameter_or_set_env
    (GATEWAYS : gmap string string) (network : string)
    (environ : gmap string string)
  : list string * gmap string string :=
  if decide (network = "mainnet")
  then ([], <["STARKNET_NETWORK" := "alpha-mainnet"]> environ)
  else if decide (network = "goerli")
  then ([], <["STARKNET_NETWORK" := "alpha-goerli"]> environ)
  else (["--gateway_url=" +:+ fmt_get GATEWAYS network;
         "--feeder_gateway_url=" +:+ fmt_get GATEWAYS network],
        environ).

(** ** Command builder *)

(** The arguments of [run_command]; an argument left at its default
    [None] is [None] here. *)
Record call : Type := {
  operation : string;
  network : string;
  contract_name : option string;
  arguments : option (list string);
  inputs : option pyval;
  signature : option pyval;
  max_fee : option string;
  query_flag : option string;
  overriding_path : option (string * string);
  mainnet_token : option string
}.

(** What [list.extend] appends for a result of [prepare_params]: the
    elements of a list, the characters of a text. *)
Definition items (v : strs) : list strs :=
  match v with
  | SList l => l
  | SStr s => map (fun c => SStr (String c "")) (list_ascii_of_string s)
  end.

(** Lines 83 to 117 of [run_command]: the command list, and the
    environment the network resolver leaves. *)
Definition build (GATEWAYS : gmap string string) (c : call)
    (environ : gmap string string)
  : list strs * gmap string string :=
  let command := [SStr "starknet"; SStr (operation c)] in
  let command :=
    match contract_name c with
    | Some name =>
        let base_path :=
          match overriding_path c with
          | Some path => path
          | None => (BUILD_DIRECTORY, ABIS_DIRECTORY)
          end in
        let contract := base_path.1 +:+ "/" +:+ name +:+ ".json" in
        command ++ [SStr "--contract"] ++ [SStr contract]
    | None => command
    end in
  let command :=
    match inputs c with
    | Some i => command ++ [SStr "--inputs"] ++ items (prepare_params (Some i))
    | None => command
    end in
  let command :=
    match signature c with
    | Some sg => command ++ [SStr "--signature"] ++ items (prepare_params (Some sg))
    | None => command
    end in
  let command :=
    match max_fee c with
    | Some fee => command ++ [SStr "--max_fee"] ++ [SStr fee]
    | None => command
    end in
  let command :=
    match mainnet_token c with
    | Some token => command ++ [SStr "--token"] ++ [SStr token]
    | None => command
    end in
  let command :=
    match query_flag c with
    | Some flag => command ++ [SStr ("--" +:+ flag)]
    | None => command
    end in
  let command :=
    match arguments c with
    | Some args => command ++ map SStr args
    | None => command
    end in
  let '(extra_param, environ) :=
    get_network_parameter_or_set_env GATEWAYS (network c) environ in
  let command := command ++ map SStr extra_param in
  (command ++ [SStr "--no_wallet"], environ).

(** The network parameters in the words of the specification: none for
    the two reserved names, and otherwise the gateway and the feeder
    gateway, both with the URL the mapping has for the name, or [None]. *)
Definition network_arguments (GATEWAYS : gmap string string) (name : string)
  : list string :=
  if decide (name = "mainnet" \/ name = "goerli") then []
  else
    let url := default "None" (GATEWAYS !! name) in
    ["--gateway_url=" +:+ url; "--feeder_gateway_url=" +:+ url].

(** The component an optional input contributes: nothing when absent. *)
Definition part {A : Type} (o : option A) (f : A -> list strs) : list strs :=
  match o with
  | Some a => f a
  | None => []
  end.

Definition base_directory (c : call) : string :=
  match overriding_path c with
  | Some path => path.1
  | None => BUILD_DIRECTORY
  end.

(** ** Invoker *)

Module Bytes.

Definition is_space (b : byte) : bool :=
  let n := Byte.to_N b in
  ((9 <=? n) && (n <=? 13) || (n =? 32))%N.

Fixpoint lstrip (b : list byte) : list byte :=
  match b with
  | x :: b' => if is_space x then lstrip b' else b
  | [] => []
  end.

Definition rstrip (b : list byte) : list byte := rev (lstrip (rev b)).

(** [bytes.strip()]: the blanks of both ends are removed. *)
Definition strip (b : list byte) : list byte := rstrip (lstrip b).

(** A continuation byte, 0x80 to 0xBF. *)
Definition is_cont (n : N) : bool := ((128 <=? n) && (n <? 192))%N.

(** [bytes.decode("utf-8")]: the code points of a well-formed UTF-8
    sequence. A byte below 0x80 is its own code point; a lead byte 0xC2 to
    0xDF takes one continuation byte, 0xE0 to 0xEF two and 0xF0 to 0xF4
    three, and the byte after the lead is limited so that no code point has
    a longer form than it needs, none is a surrogate and none is above
    U+10FFFF. Anything else raises [UnicodeDecodeError]. *)
Fixpoint decode (b : list byte) : result (list N) :=
  match b with
  | [] => Ok []
  | x :: b1 =>
      let n := Byte.to_N x in
      if (n <? 128)%N
      then t ← decode b1; Ok (n :: t)
      else if ((194 <=? n) && (n <=? 223))%N
      then match b1 with
           | y :: b2 =>
               let m := Byte.to_N y in
               if is_cont m
               then t ← decode b2; Ok (((n - 192) * 64 + (m - 128))%N :: t)
               else Raise UnicodeDecodeError
           | _ => Raise UnicodeDecodeError
           end
      else if ((224 <=? n) && (n <=? 239))%N
      then match b1 with
           | y :: z :: b3 =>
               let m := Byte.to_N y in
               let k := Byte.to_N z in
               if is_cont m && is_cont k
                  && (negb (n =? 224) || (160 <=? m))%N
                  && (negb (n =? 237) || (m <? 160))%N
               then t ← decode b3;
                    Ok (((n - 224) * 4096 + (m - 128) * 64 + (k - 128))%N :: t)
               else Raise UnicodeDecodeError
           | _ => Raise UnicodeDecodeError
           end
      else if ((240 <=? n) && (n <=? 244))%N
      then match b1 with
           | y :: z :: v :: b4 =>
               let m := Byte.to_N y in
               let k := Byte.to_N z in
               let j := Byte.to_N v in
               if is_cont m && is_cont k && is_cont j
                  && (negb (n =? 240) || (144 <=? m))%N
                  && (negb (n =? 244) || (m <? 144))%N
               then t ← decode b4;
                    Ok (((n - 240) * 262144 + (m - 128) * 4096
                         + (k - 128) * 64 + (j - 128))%N :: t)
               else Raise UnicodeDecodeError
           | _ => Raise UnicodeDecodeError
           end
      else Raise UnicodeDecodeError
  end.

End Bytes.

(** A finished child process. *)
Record completed : Type := {
  returncode : Z;
  stdout : list byte;
  stderr : list byte
}.

(** The two remediation hints [run_command] logs. *)
Inductive hint : Type := HintMaxFee | HintAccount.

Section Invoker.

(** The operating system: [spawn command environ w] launches the command
    in state [w] and waits for it. It returns the finished process, or
    the exception of a launch that failed (no such executable, an
    argument that is not text), and the next state. *)
Context {world : Type}.
Variable spawn :
  list strs -> gmap string string -> world -> result completed * world.

(** Lines 119 to 139 of [run_command]. [check_output] raises
    [CalledProcessError] on a non-zero exit code, and the handler launches
    the command again to read its standard error. The function returns
    its result, the log and the state of the operating system. *)
Definition invoke (command : list strs) (environ : gmap string string)
    (log : list hint) (w : world)
  : result (list N) * list hint * world :=
  match spawn command environ w with
  | (Raise e, w) => (Raise e, log, w)
  | (Ok p, w) =>
      if returncode p =? 0
      then (Bytes.decode (Bytes.strip (stdout p)), log, w)
      else
        match spawn command environ w with
        | (Raise e, w) => (Raise e, log, w)
        | (Ok p, w) =>
            match Bytes.decode (stderr p) with
            | Raise e => (Raise e, log, w)
            | Ok err_msg =>
                let log :=
                  if Text.contains
                       (Text.of_string "max_fee must be bigger than 0") err_msg
                  then log ++ [HintMaxFee]
                  else if Text.contains
                            (Text.of_string
                               "transactions should go through the __execute__ entrypoint.")
                            err_msg
                  then log ++ [HintAccount]
                  else log in
                (Ok [], log, w)
            end
        end
  end.

(** The state [run_command] works in. *)
Record state : Type := {
  environ : gmap string string;
  log : list hint;
  os : world
}.

Definition run_command (GATEWAYS : gmap string string) (c : call) (st : state)
  : result (list N) * state :=
  let '(command, env) := build GATEWAYS c (environ st) in
  let '(r, lg, w) := invoke command env (log st) (os st) in
  (r, {| environ := env; log := lg; os := w |}).

End Invoker.

(** An operating system whose launches are scripted: each launch takes
    the next outcome of the script, whatever the command. *)
Definition scripted (command : list strs) (environ : gmap string string)
    (w : list (result completed)) : result completed * list (result completed) :=
  match w with
  | r :: w' => (r, w')
  | [] => (Raise OSError, [])
  end.

(** ** Contract discovery *)

Definition CONTRACTS_DIRECTORY : string := "contracts".

(** [s.endswith(suffix)]. *)
Fixpoint endswith (suffix s : string) : bool :=
  if String.eqb s suffix then true
  else match s with
       | String _ s' => endswith suffix s'
       | EmptyString => false
       end.

(** [os.path.join(a, b)] on POSIX: an absolute [b] replaces [a], and a
    separator is put between the two unless [a] is empty or ends with
    one. *)
Definition path_join (a b : string) : string :=
  if Str.startswith "/" b then b
  else if String.eqb a "" || endswith "/" a then a +:+ b
  else a +:+ "/" +:+ b.

Section Contracts.

(** [os.walk(top)]: the directories under [top], each with the names of
    its subdirectories and of its files. *)
Variable walk : string -> list (string * list string * list string).

(** The loop adds to [files], directory after directory, the joined
    paths of the file names that end with [ext]. *)
Definition get_all_contracts (ext directory : option string) : list string :=
  let ext := match ext with None => ".cairo" | Some e => e end in
  let top :=
    match directory with
    | Some d => if String.eqb d "" then CONTRACTS_DIRECTORY else d
    | None => CONTRACTS_DIRECTORY
    end in
  fold_left
    (fun files '(dirpath, _, filenames) =>
       files ++ map (path_join dirpath) (List.filter (endswith ext) filenames))
    (walk top) [].

End Contracts.

(** ** Contract classes and their hashes *)

Section ClassHash.

(** The collaborators: [ContractClass.loads], [compute_class_hash] with
    the Pedersen hash, and [nile.utils.hex_class_hash]. The development is
    parametric in them. *)
Context {contract_class : Type}.
Variable loads : string -> result contract_class.
Variable compute_class_hash : contract_class -> result Z.
Variable hex_class_hash : Z -> string.

(** Opening an absent file for reading raises [FileNotFoundError], an
    [OSError]. *)
Definition get_contract_class (files : gmap string string)
    (contract_name : string) (overriding_path : option (string * string))
  : result contract_class :=
  let base_path :=
    match overriding_path with
    | Some path => path
    | None => (BUILD_DIRECTORY, ABIS_DIRECTORY)
    end in
  match files !! (base_path.1 +:+ "/" +:+ contract_name +:+ ".json") with
  | Some content => loads content
  | None => Raise OSError
  end.

Definition get_hash (files : gmap string string)
    (contract_name : string) (overriding_path : option (string * string))
  : result string :=
  contract_class ← get_contract_class files contract_name overriding_path;
  class_hash ← compute_class_hash contract_class;
  Ok (hex_class_hash class_hash).

End ClassHash.

(** ** Commands of text *)

(** Whether an optional parameter sequence has no list or tuple among
    its elements. *)
Definition shallow (o : option pyval) : bool :=
  match o with
  | Some (VList l) | Some (VTuple l) => forallb is_scalar l
  | _ => true
  end.

(** ** Matches and the text between them *)

(** The text made of a leading gap and of matches, each followed by its
    gap. *)
Fixpoint after_gap (l : list (list N * list N)) : list N :=
  match l with
  | [] => []
  | (m, gap) :: l' => m ++ gap ++ after_gap l'
  end.

Definition rebuild (gap : list N) (l : list (list N * list N)) : list N :=
  gap ++ after_gap l.

(** ** Fixtures of the examples *)

(** A call and three finished processes for the examples. *)
Definition sample_call : call :=
  {| operation := "deploy"; network := "localhost";
     contract_name := Some "token"; arguments := None; inputs := None;
     signature := None; max_fee := None; query_flag := None;
     overriding_path := None; mainnet_token := None |}.

Definition sample_state (script : list (result completed))
  : @state (list (result completed)) :=
  {| environ := ∅; log := []; os := script |}.

(** Exit code 0 and the standard output [" ok\n"]. *)
Definition exit_ok : completed :=
  {| returncode := 0; stdout := [x20; x6f; x6b; x0a]; stderr := [] |}.

(** Exit code 1 and the standard error ["max_fee must be bigger than 0"]. *)
Definition exit_no_fee : completed :=
  {| returncode := 1; stdout := [];
     stderr := String.list_byte_of_string "max_fee must be bigger than 0" |}.

(** Exit code 1 and the standard error ["boom"]. *)
Definition exit_other : completed :=
  {| returncode := 1; stdout := []; stderr := [x62; x6f; x6f; x6d] |}.

(** Exit code 1 and a standard error that starts with the face with open
    mouth and cold sweat, U+1F630, before [" max_fee must be bigger than 0"]. *)
Definition exit_hint : completed :=
  {| returncode := 1; stdout := [];
     stderr :=
       [xf0; x9f; x98; xb0; x20]
       ++ String.list_byte_of_string "max_fee must be bigger than 0" |}.

(** A reader that knows the default text only. *)
Definition load_default (content : string) : result (gmap string string) :=
  if String.eqb content default_node_json then Ok (list_to_map networks)
  else Raise ValueError.

(** * Facts *)

(** ** Strings *)

Lemma char_eqb_eq a b : Char.eqb a b = true <-> a = b.
Proof.
  unfold Char.eqb, Char.code. rewrite N.eqb_eq. split; [|congruence].
  intros H. rewrite <- (ascii_N_embedding a), <- (ascii_N_embedding b).
  now rewrite H.
Qed.

Section StrFacts.

Import Str.

Lemma str_app_cons c a b : String c a +:+ b = String c (a +:+ b).
Proof. reflexivity. Qed.

Lemma str_app_nil_l s : "" +:+ s = s.
Proof. reflexivity. Qed.

Lemma str_app_nil_r s : s +:+ "" = s.
Proof. induction s as [|a s IH]; [reflexivity|]. now rewrite str_app_cons, IH. Qed.

Lemma str_app_assoc a b c : (a +:+ b) +:+ c = a +:+ (b +:+ c).
Proof. induction a as [|x a IH]; [reflexivity|]. now rewrite !str_app_cons, IH. Qed.

Lemma str_app_length a b :
  String.length (a +:+ b) = (String.length a + String.length b)%nat.
Proof. induction a as [|x a IH]; [reflexivity|]. rewrite str_app_cons. simpl. now rewrite IH. Qed.

Lemma startswith_spec p s : startswith p s = true <-> exists r, s = p +:+ r.
Proof.
  revert s. induction p as [|a p IH]; intros s; simpl.
  - split; [intros _; now exists s | reflexivity].
  - destruct s as [|b s].
    + split; [discriminate | intros [r Hr]; discriminate].
    + rewrite andb_true_iff, char_eqb_eq, IH. split.
      * intros [-> [r ->]]. now exists r.
      * intros [r Hr]. rewrite str_app_cons in Hr. injection Hr as -> ->.
        split; [reflexivity | now exists r].
Qed.

Lemma str_drop_app p r : drop (String.length p) (p +:+ r) = r.
Proof.
  induction p as [|a p IH]; [now destruct r|]. rewrite str_app_cons. exact IH.
Qed.

End StrFacts.

(** ** Hexadecimal numerals among the strings *)

Example int_samples :
  map (PyInt.parse PyInt.Dec) [" 1 "; "+1"; "-1"; "- 1"; "1_0"; "_1"; "1_"; "1__0"; "007"; ""; "0x1"]
  = [Some 1; Some 1; Some (-1); None; Some 10; None; None; None; Some 7; None; None]
  /\ map (PyInt.parse PyInt.Hex) ["0x"; "0x_1"; "0x1_"; "0x1f"; "0X1F"; "0x 1"; "0x1 "; " 0x1"; "+0x1"; "0x-1"; "0x0x1"; "ff"; "0x__1"; "0x1_f"; "0xg"]
  = [None; Some 1; None; Some 31; Some 31; None; Some 1; Some 1; Some 1; None; None; Some 255; None; Some 31; None].
Proof. split; vm_compute; reflexivity. Qed.

Section HexTextFacts.

Import Str.

Lemma is_hex_text_spec m :
  HexText.is_hex_text m = true <->
  exists ds, m = "0x" +:+ ds /\ all Char.is_re_hex ds = true
             /\ (1 <= String.length ds <= 64)%nat.
Proof.
  unfold HexText.is_hex_text. rewrite !andb_true_iff, startswith_spec.
  rewrite Nat.leb_le, Nat.leb_le. split.
  - intros [[[[ds ->] Hall] H1] H2]. exists ds.
    change (drop 2 ("0x" +:+ ds)) with ds in *. auto.
  - intros (ds & -> & Hall & H1 & H2).
    change (drop 2 ("0x" +:+ ds)) with ds. eauto.
Qed.

Ltac by_cases_on_char c :=
  destruct c as [[] [] [] [] [] [] [] []]; vm_compute; intros; congruence.

Lemma re_hex_digit c :
  Char.is_re_hex c = true ->
  PyInt.digit PyInt.Hex c = Some (default 0 (Char.digit_value c)).
Proof. by_cases_on_char c. Qed.

Lemma re_hex_not_underscore c :
  Char.is_re_hex c = true -> Char.eqb "_" c = false.
Proof. by_cases_on_char c. Qed.

Lemma more_digits_hex acc ds :
  all Char.is_re_hex ds = true ->
  PyInt.more_digits PyInt.Hex acc ds = Some (HexText.digits_value acc ds, "").
Proof.
  revert acc. induction ds as [|c ds IH]; intros acc H; [reflexivity|].
  simpl in H. apply andb_true_iff in H as [Hc Hds].
  simpl. rewrite (re_hex_digit c Hc). now apply IH.
Qed.

Lemma parse_hex_text m :
  HexText.is_hex_text m = true -> PyInt.parse PyInt.Hex m = Some (HexText.value m).
Proof.
  intros (ds & -> & Hall & Hlen & _)%is_hex_text_spec.
  destruct ds as [|c ds]; [simpl in Hlen; lia|].
  simpl in Hall. apply andb_true_iff in Hall as [Hc Hds].
  unfold HexText.value.
  change (drop 2 ("0x" +:+ String c ds)) with (String c ds).
  unfold PyInt.parse.
  change (drop_while Char.is_int_space ("0x" +:+ String c ds))
    with ("0x" +:+ String c ds).
  change (PyInt.skip_sign ("0x" +:+ String c ds))
    with (false, "0x" +:+ String c ds).
  cbv beta iota.
  assert (PyInt.skip_prefix PyInt.Hex ("0x" +:+ String c ds) = String c ds) as ->.
  { unfold PyInt.skip_prefix.
    change (startswith "0x" ("0x" +:+ String c ds)) with true.
    change (drop 2 ("0x" +:+ String c ds)) with (String c ds).
    simpl. now rewrite (re_hex_not_underscore c Hc). }
  simpl. rewrite (re_hex_digit c Hc).
  now rewrite (more_digits_hex _ ds Hds).
Qed.

Lemma int_hex_text m :
  HexText.is_hex_text m = true -> PyInt.int PyInt.Hex m = Ok (HexText.value m).
Proof. intros H. unfold PyInt.int. now rewrite (parse_hex_text m H). Qed.

Lemma rmap_total {A B : Type} (f : A -> result B) (g : A -> B) (l : list A) :
  (forall a, a ∈ l -> f a = Ok (g a)) -> rmap f l = Ok (map g l).
Proof.
  induction l as [|a l IH]; intros H; [reflexivity|].
  simpl. rewrite (H a) by apply list_elem_of_here. simpl.
  rewrite IH; [reflexivity|]. intros b Hb. apply H. now apply list_elem_of_further.
Qed.

End HexTextFacts.

(** ** Properties of the scan *)

Example findall_samples :
  Re.findall
    (Text.of_string
       "0x0x1 00x1 0xAB 0xg 0x12345678901234567890123456789012345678901234567890123456789012345678 z")
  = map Text.of_string
      ["0x0"; "0x1"; "0x1234567890123456789012345678901234567890123456789012345678901234"].
Proof. vm_compute. reflexivity. Qed.

(** The text ["0x" U+0661 " 0x2"]: the first token has an Arabic-Indic
    digit one. *)
Example findall_other_script :
  Re.findall [48; 120; 1633; 32; 48; 120; 50]%N
  = [[48; 120; 1633]; [48; 120; 50]]%N
  /\ Re.scan Re.is_ascii_hex [48; 120; 1633; 32; 48; 120; 50]%N
     = [[48; 120; 50]]%N.
Proof. split; vm_compute; reflexivity. Qed.

Lemma text_startswith_spec (p s : list N) :
  Text.startswith p s = true <-> exists r, s = p ++ r.
Proof.
  revert s. induction p as [|a p IH]; intros s; simpl.
  - split; [intros _; now exists s | reflexivity].
  - destruct s as [|b s].
    + split; [discriminate | intros [r Hr]; discriminate].
    + rewrite andb_true_iff, N.eqb_eq, IH. split.
      * intros [-> [r ->]]. now exists r.
      * intros [r Hr]. injection Hr as -> ->. split; [reflexivity | now exists r].
Qed.

Lemma take_while_app (f : N -> bool) n (p r : list N) :
  forallb f p = true -> (length p <= n)%nat ->
  Text.take_while f n (p ++ r) = p ++ Text.take_while f (n - length p) r.
Proof.
  revert n. induction p as [|c p IH]; intros n Hall Hlen.
  - simpl. now rewrite Nat.sub_0_r.
  - simpl in Hall, Hlen. apply andb_true_iff in Hall as [Hc Hp].
    destruct n as [|n]; [lia|]. simpl. rewrite Hc.
    rewrite IH by (auto; lia). reflexivity.
Qed.

Lemma take_while_prefix (f : N -> bool) n (s : list N) :
  exists r, s = Text.take_while f n s ++ r.
Proof.
  revert s. induction n as [|n IH]; intros s.
  - exists s. now destruct s.
  - destruct s as [|c s]; [now exists []|]. simpl. destruct (f c).
    + destruct (IH s) as [r Hr]. exists r. simpl. now rewrite <- Hr.
    + now exists (c :: s).
Qed.

Lemma take_while_all (f : N -> bool) n (s : list N) :
  forallb f (Text.take_while f n s) = true.
Proof.
  revert s. induction n as [|n IH]; intros [|c s]; simpl; auto.
  destruct (f c) eqn:Hc; simpl; [|reflexivity]. now rewrite Hc, IH.
Qed.

Lemma take_while_length (f : N -> bool) n (s : list N) :
  (length (Text.take_while f n s) <= n)%nat.
Proof.
  revert s. induction n as [|n IH]; intros [|c s]; simpl; try lia.
  destruct (f c); simpl; [|lia]. specialize (IH s). lia.
Qed.

Lemma take_while_agree (f g : N -> bool) n (s : list N) :
  Forall (fun c => f c = g c) s ->
  Text.take_while f n s = Text.take_while g n s.
Proof.
  intros H. revert n. induction H as [|c s Hc _ IH]; intros [|n]; simpl; auto.
  rewrite Hc. destruct (g c); [|reflexivity]. now rewrite IH.
Qed.

Lemma app_same_length (a b a' b' : list N) :
  a ++ b = a' ++ b' -> length a = length a' -> a = a' /\ b = b'.
Proof.
  revert a'. induction a as [|c a IH]; intros [|c' a'] H Hlen; try discriminate.
  - auto.
  - simpl in H, Hlen. injection H as -> H.
    destruct (IH a' H) as [-> ->]; [lia | easy].
Qed.

Section ScanFacts.

Variable cls : N -> bool.

Lemma is_token_spec m :
  Re.is_token cls m = true <->
  exists ds, m = [48; 120]%N ++ ds /\ forallb cls ds = true
             /\ (1 <= length ds <= 64)%nat.
Proof.
  unfold Re.is_token. rewrite !andb_true_iff, text_startswith_spec.
  rewrite Nat.leb_le, Nat.leb_le. split.
  - intros [[[[ds ->] Hall] H1] H2]. exists ds. simpl in *. auto.
  - intros (ds & -> & Hall & H1 & H2). simpl. eauto.
Qed.

Lemma match_at_Some s m :
  Re.match_at cls s = Some m ->
  Re.is_token cls m = true
  /\ (exists r, s = m ++ r)
  /\ (forall m' r', Re.is_token cls m' = true -> s = m' ++ r' ->
                    (length m' <= length m)%nat).
Proof.
  unfold Re.match_at. destruct (Text.startswith [48; 120]%N s) eqn:Hp; [|discriminate].
  apply text_startswith_spec in Hp as [t ->].
  change (drop 2 ([48; 120]%N ++ t)) with t.
  destruct (Text.take_while cls 64 t) as [|c ds] eqn:Htw; [discriminate|].
  intros [= <-]. split; [|split].
  - apply is_token_spec. exists (c :: ds). split; [reflexivity|].
    rewrite <- Htw. split; [apply take_while_all|].
    pose proof (take_while_length cls 64 t) as Hl.
    rewrite Htw in *. simpl in *. lia.
  - destruct (take_while_prefix cls 64 t) as [r Hr].
    exists r. rewrite Htw in Hr. rewrite Hr. reflexivity.
  - intros m' r' Hm' Heq. apply is_token_spec in Hm' as (ds' & -> & Hall & H1 & H2).
    cbn [app] in Heq. injection Heq as ->.
    rewrite take_while_app in Htw by (auto; lia).
    apply (f_equal (@length N)) in Htw. rewrite length_app in Htw.
    rewrite !length_app. simpl in *. lia.
Qed.

Lemma match_at_None s m r :
  Re.match_at cls s = None -> Re.is_token cls m = true -> s <> m ++ r.
Proof.
  intros Hnone Hm ->. apply is_token_spec in Hm as (ds & -> & Hall & H1 & H2).
  unfold Re.match_at in Hnone.
  change (Text.startswith [48; 120]%N (([48; 120]%N ++ ds) ++ r)) with true in Hnone.
  change (drop 2 (([48; 120]%N ++ ds) ++ r)) with (ds ++ r) in Hnone.
  rewrite take_while_app in Hnone by (auto; lia).
  destruct ds as [|c ds]; [simpl in H1; lia|]. discriminate.
Qed.

Lemma scan_from_skip (p r : list N) :
  Re.scan_from cls (length p) (p ++ r) = Re.scan_from cls 0 r.
Proof. induction p as [|c p IH]; [reflexivity|]. exact IH. Qed.

Lemma scan_cons c s :
  Re.scan cls (c :: s) =
  match Re.match_at cls (c :: s) with
  | Some m => m :: Re.scan_from cls (length m - 1) s
  | None => Re.scan cls s
  end.
Proof. reflexivity. Qed.

Lemma scan_hit m r :
  Re.match_at cls (m ++ r) = Some m -> Re.scan cls (m ++ r) = m :: Re.scan cls r.
Proof.
  intros H. destruct m as [|c m].
  - apply match_at_Some in H as [H _]. discriminate.
  - change ((c :: m) ++ r) with (c :: m ++ r) in *. rewrite scan_cons, H.
    replace (length (c :: m) - 1)%nat with (length m) by (simpl; lia).
    now rewrite scan_from_skip.
Qed.

Lemma match_at_longest m r :
  Re.is_token cls m = true ->
  (forall m' r', Re.is_token cls m' = true -> m ++ r = m' ++ r' ->
                 (length m' <= length m)%nat) ->
  Re.match_at cls (m ++ r) = Some m.
Proof.
  intros Hm Hmax. destruct (Re.match_at cls (m ++ r)) as [m'|] eqn:Hh.
  - apply match_at_Some in Hh as (Hm' & [r' Hr'] & Hmax').
    destruct (app_same_length _ _ _ _ Hr') as [-> _]; [|reflexivity].
    apply Nat.le_antisymm; [eapply Hmax' | eapply Hmax]; eauto.
  - exfalso. eapply match_at_None; eauto.
Qed.

Lemma scan_Matches_length n s :
  (length s <= n)%nat -> Re.Matches cls s (Re.scan cls s).
Proof.
  revert s. induction n as [|n IH]; intros s Hn.
  - destruct s; [constructor | simpl in Hn; lia].
  - destruct s as [|c s]; [constructor|].
    destruct (Re.match_at cls (c :: s)) as [m|] eqn:Hh.
    + pose proof Hh as (Hm & [r Hr] & Hmax)%match_at_Some.
      rewrite Hr in Hh |- *. rewrite (scan_hit _ _ Hh).
      constructor; auto.
      * intros m' r' Hm' Heq. apply (Hmax m' r' Hm'). now rewrite Hr.
      * apply IH. apply (f_equal (@length N)) in Hr. rewrite length_app in Hr.
        simpl in Hr, Hn. destruct m; [discriminate|]. simpl in Hr. lia.
    + rewrite scan_cons, Hh. constructor.
      * intros m r. now apply match_at_None.
      * apply IH. simpl in Hn. lia.
Qed.

Lemma scan_Matches s : Re.Matches cls s (Re.scan cls s).
Proof. now apply (scan_Matches_length (length s)). Qed.

Lemma Matches_scan s ms : Re.Matches cls s ms -> ms = Re.scan cls s.
Proof.
  induction 1 as [|c s ms Hno _ IH|m r ms Hm Hmax _ IH].
  - reflexivity.
  - rewrite scan_cons.
    destruct (Re.match_at cls (c :: s)) as [m|] eqn:Hh; [|exact IH].
    apply match_at_Some in Hh as (Hm & [r Hr] & _). now destruct (Hno m r).
  - rewrite (scan_hit m r); [now f_equal|]. now apply match_at_longest.
Qed.

Lemma Matches_iff s ms : Re.Matches cls s ms <-> ms = Re.scan cls s.
Proof.
  split; [apply Matches_scan | intros ->; apply scan_Matches].
Qed.

Lemma scan_tokens s m : m ∈ Re.scan cls s -> Re.is_token cls m = true.
Proof.
  pose proof (scan_Matches s) as H. induction H; [inversion 1|auto|].
  intros [->|?]%elem_of_cons; auto.
Qed.

End ScanFacts.

Lemma scan_from_agree (f g : N -> bool) skip (s : list N) :
  Forall (fun c => f c = g c) s ->
  Re.scan_from f skip s = Re.scan_from g skip s.
Proof.
  intros H. revert skip. induction H as [|c s Hc Hs IH]; intros skip; [reflexivity|].
  cbn [Re.scan_from]. destruct skip as [|k]; [|apply IH].
  assert (Re.match_at f (c :: s) = Re.match_at g (c :: s)) as ->.
  { unfold Re.match_at. destruct (Text.startswith [48; 120]%N (c :: s)); [|reflexivity].
    rewrite (take_while_agree f g); [reflexivity|].
    destruct s as [|c' s']; [constructor|]. simpl. now inversion Hs. }
  destruct (Re.match_at g (c :: s)); now rewrite IH.
Qed.

Lemma ascii_digit_is_decimal c :
  ((48 <=? c) && (c <=? 57))%N = true -> Unicode.decimal c = Some (c - 48)%N.
Proof.
  intros [H1 H2]%andb_true_iff. apply N.leb_le in H1, H2.
  unfold Unicode.decimal, Unicode.decimal_zeros. cbn [find].
  assert (((48 <=? c) && (c <? 48 + 10))%N = true) as ->; [|reflexivity].
  apply andb_true_iff. split; [apply N.leb_le | apply N.ltb_lt]; lia.
Qed.

Lemma plain_classes_agree c :
  Re.is_plain c = true -> Re.is_class c = Re.is_ascii_hex c.
Proof.
  unfold Re.is_plain, Re.is_class, Re.is_ascii_hex, Unicode.is_decimal.
  destruct (((48 <=? c) && (c <=? 57))%N) eqn:Hd.
  - rewrite (ascii_digit_is_decimal c Hd). reflexivity.
  - destruct (Unicode.decimal c); [discriminate|reflexivity].
Qed.

Lemma scan_plain (s : list N) :
  forallb Re.is_plain s = true -> Re.scan Re.is_ascii_hex s = Re.findall s.
Proof.
  intros H. unfold Re.findall, Re.scan. symmetry. apply scan_from_agree.
  rewrite forallb_forall in H.
  apply Forall_forall. intros c Hc. apply plain_classes_agree, H.
  now apply list_elem_of_In.
Qed.

(** ** Reading matches as integers *)

Section TokenFacts.

Lemma decimal_some c d :
  Unicode.decimal c = Some d ->
  exists z, In z Unicode.decimal_zeros /\ (z <= c < z + 10)%N /\ d = (c - z)%N.
Proof.
  unfold Unicode.decimal.
  destruct (find _ Unicode.decimal_zeros) as [z|] eqn:Hf; [|discriminate].
  intros [= <-]. apply find_some in Hf as [Hin [H1 H2]%andb_true_iff].
  apply N.leb_le in H1. apply N.ltb_lt in H2. now exists z.
Qed.

Lemma decimal_zeros_low z :
  In z Unicode.decimal_zeros -> z = 48%N \/ (1632 <= z)%N.
Proof.
  assert (forallb (fun z => (z =? 48) || (1632 <=? z))%N Unicode.decimal_zeros = true)
    as H by (vm_compute; reflexivity).
  rewrite forallb_forall in H. intros Hz. specialize (H z Hz).
  apply orb_true_iff in H as [H%N.eqb_eq | H%N.leb_le]; auto.
Qed.

Lemma decimal_digit c d : Unicode.decimal c = Some d -> (d < 10)%N.
Proof. intros (z & _ & Hz & ->)%decimal_some. lia. Qed.

Lemma decimal_low c d :
  Unicode.decimal c = Some d -> (c < 1632)%N ->
  (48 <= c <= 57)%N /\ d = (c - 48)%N.
Proof.
  intros (z & Hin & Hz & ->)%decimal_some Hc.
  destruct (decimal_zeros_low z Hin) as [-> | Hbig]; lia.
Qed.

Lemma blank_not_decimal c :
  Unicode.is_blank c = true -> Unicode.decimal c = None.
Proof.
  assert (forallb (fun x => match Unicode.decimal x with None => true | Some _ => false end)
            Unicode.blanks = true) as H by (vm_compute; reflexivity).
  rewrite forallb_forall in H.
  unfold Unicode.is_blank. intros (x & Hin & ->%N.eqb_eq)%existsb_exists.
  specialize (H x Hin). now destruct (Unicode.decimal x).
Qed.

(** What [int] makes of one character of a match: a character of
    [[0-9a-f]] with the same value. *)
Lemma class_char c :
  Re.is_class c = true ->
  exists a,
    (forall t, Unicode.transform (c :: t) = String a (Unicode.transform t))
    /\ Char.is_re_hex a = true
    /\ default 0 (Char.digit_value a) = Re.digit_value c
    /\ ((c <? 128)%N = true -> (c <? 127)%N = true).
Proof.
  unfold Re.is_class, Unicode.is_decimal, Re.digit_value. cbn [Unicode.transform].
  destruct (Unicode.decimal c) as [d|] eqn:Hdec.
  - intros _. pose proof (decimal_digit c d Hdec) as Hd.
    destruct (c <? 127)%N eqn:Hlow.
    + apply N.ltb_lt in Hlow.
      destruct (decimal_low c d Hdec ltac:(lia)) as [Hc ->].
      exists (ascii_of_N c). split; [reflexivity|].
      assert (c = 48 \/ c = 49 \/ c = 50 \/ c = 51 \/ c = 52 \/ c = 53 \/ c = 54
              \/ c = 55 \/ c = 56 \/ c = 57)%N as Hcases by lia.
      repeat (destruct Hcases as [-> | Hcases]; [repeat split|]).
      subst c. repeat split.
    + assert (Unicode.is_blank c = false) as ->.
      { destruct (Unicode.is_blank c) eqn:Hb; [|reflexivity].
        apply blank_not_decimal in Hb. congruence. }
      exists (ascii_of_N (48 + d)). split; [reflexivity|].
      apply N.ltb_ge in Hlow.
      assert ((c <? 128)%N = true -> false = true) as Hno.
      { intros H%N.ltb_lt.
        destruct (decimal_low c d Hdec ltac:(lia)) as [Hc _]. lia. }
      assert (d = 0 \/ d = 1 \/ d = 2 \/ d = 3 \/ d = 4 \/ d = 5 \/ d = 6
              \/ d = 7 \/ d = 8 \/ d = 9)%N as Hcases by lia.
      repeat (destruct Hcases as [-> | Hcases]; [repeat split; exact Hno|]).
      subst d. repeat split; exact Hno.
  - rewrite orb_false_l. intros [H1 H2]%andb_true_iff.
    apply N.leb_le in H1, H2.
    assert (c = 97 \/ c = 98 \/ c = 99 \/ c = 100 \/ c = 101 \/ c = 102)%N
      as Hcases by lia.
    exists (ascii_of_N c).
    repeat (destruct Hcases as [-> | Hcases]; [repeat split|]).
    subst c. repeat split.
Qed.

Lemma transform_class ds :
  forallb Re.is_class ds = true ->
  exists s,
    Unicode.transform ds = s
    /\ Str.all Char.is_re_hex s = true
    /\ String.length s = length ds
    /\ (forall acc, HexText.digits_value acc s = Re.digits_value acc ds)
    /\ (forallb (fun c => (c <? 128)%N) ds = true ->
        forallb (fun c => (c <? 127)%N) ds = true).
Proof.
  induction ds as [|c ds IH]; intros H.
  - exists "". repeat split.
  - cbn [forallb] in H. apply andb_true_iff in H as [Hc Hds].
    destruct (IH Hds) as (s & Hs & Hall & Hlen & Hval & Hlow).
    destruct (class_char c Hc) as (a & Ha & Hhex & Hdig & Hclow).
    exists (String a s). rewrite Ha, Hs. split; [reflexivity|].
    split; [cbn [Str.all]; now rewrite Hhex|].
    split; [cbn [String.length length]; now rewrite Hlen|].
    split.
    + intros acc. cbn [HexText.digits_value Re.digits_value].
      now rewrite Hdig, Hval.
    + cbn [forallb]. intros [H1 H2]%andb_true_iff.
      now rewrite (Hclow H1), (Hlow H2).
Qed.

Lemma transform_low (t : list N) :
  forallb (fun c => (c <? 127)%N) t = true ->
  Unicode.transform t = string_of_list_ascii (map ascii_of_N t).
Proof.
  induction t as [|c t IH]; [reflexivity|].
  cbn [forallb]. intros [Hc Ht]%andb_true_iff.
  cbn [Unicode.transform map string_of_list_ascii]. rewrite Hc.
  now rewrite IH.
Qed.

Lemma int_token m :
  Re.is_token Re.is_class m = true ->
  Unicode.int PyInt.Hex m = Ok (Re.token_value m).
Proof.
  intros (ds & -> & Hall & H1 & H2)%is_token_spec.
  destruct (transform_class ds Hall) as (s & Hs & Hhex & Hlen & Hval & Hlow).
  assert (Unicode.to_ascii ([48; 120]%N ++ ds) = "0x" +:+ s) as Hto.
  { unfold Unicode.to_ascii.
    destruct (forallb (fun c => (c <? 128)%N) ([48; 120]%N ++ ds)) eqn:Hascii.
    - cbn [app forallb] in Hascii.
      rewrite <- transform_low.
      + cbn [app Unicode.transform]. now rewrite Hs.
      + cbn [app forallb]. now rewrite Hlow.
    - cbn [app Unicode.transform]. now rewrite Hs. }
  unfold Unicode.int. rewrite Hto.
  rewrite int_hex_text.
  - unfold HexText.value, Re.token_value.
    change (Str.drop 2 ("0x" +:+ s)) with s.
    change (drop 2 ([48; 120]%N ++ ds)) with ds. now rewrite Hval.
  - apply is_hex_text_spec. exists s. rewrite Hlen. auto.
Qed.

Lemma findall_tokens (text m : list N) :
  m ∈ Re.findall text -> Re.is_token Re.is_class m = true.
Proof. apply scan_tokens. Qed.

End TokenFacts.

(** On a string, reading its text and reading the string agree: here
    with blanks U+0085 and U+00A0, a sign, underscores and a character,
    U+00E9, that no numeral has. *)
Example int_of_string_samples :
  let samples :=
    [String "133" (String "160" "-1_2 "); "0x1f"; " 0X_aF"; "12" +:+ String "233" "";
     String "127" "1"; "1__2"; ""] in
  map (fun s => Unicode.int PyInt.Dec (Text.of_string s)) samples
  = map (PyInt.int PyInt.Dec) samples
  /\ map (fun s => Unicode.int PyInt.Hex (Text.of_string s)) samples
     = map (PyInt.int PyInt.Hex) samples
  /\ map (PyInt.int PyInt.Hex) samples
     = [Ok (-18); Ok 31; Ok 175; Raise ValueError; Raise ValueError;
        Raise ValueError; Raise ValueError].
Proof. repeat split; vm_compute; reflexivity. Qed.

(** ** Output parser *)

Example parse_information_two :
  parse_information
    (Text.of_string "Contract address: 0x1a2b Transaction hash: 0x3c4d")
  = Ok (6699, 15437).
Proof. vm_compute. reflexivity. Qed.

Example parse_information_one :
  parse_information (Text.of_string "only one 0xabc") = Raise ValueError.
Proof. vm_compute. reflexivity. Qed.

Example parse_information_three :
  parse_information (Text.of_string "0x1 0x2 0x3") = Raise ValueError.
Proof. vm_compute. reflexivity. Qed.

(** C1, as the specification states it, fails. The text ["0x" U+0661
    " 0x2"], whose third character is an Arabic-Indic digit one, has
    exactly one match of [0x] and 1 to 64 characters of [[0-9a-f]], so the
    claim has [parse_information] fail on it; the function returns the
    pair (1, 2). *)
Lemma parse_information_other_script :
  Re.Matches Re.is_ascii_hex [48; 120; 1633; 32; 48; 120; 50]%N [[48; 120; 50]%N]
  /\ parse_information [48; 120; 1633; 32; 48; 120; 50]%N = Ok (1, 2).
Proof.
  split; [|vm_compute; reflexivity].
  apply Matches_iff. vm_compute. reflexivity.
Qed.

(** C1, amended. Every text has one sequence of matches of the pattern
    [0x] and 1 to 64 characters each a decimal digit of any script or a
    letter [a] to [f], taken in order of appearance. When this sequence
    has exactly two elements, [parse_information] returns the pair of the
    integers the first and the second denote, each obtained by
    [normalize_number]; when it has any other number of elements, the
    function raises [ValueError] and returns nothing. On a text that has
    no decimal digit outside ASCII, these matches are the matches of [0x]
    and 1 to 64 characters of [[0-9a-f]]. *)
Theorem parse_information_two_matches_or_error (x : list N) :
  exists ms,
    (forall ms', Re.Matches Re.is_class x ms' <-> ms' = ms) /\
    (forallb Re.is_plain x = true ->
     forall ms', Re.Matches Re.is_ascii_hex x ms' <-> ms' = ms) /\
    match ms with
    | [m1; m2] =>
        normalize_number m1 = Ok (Re.token_value m1) /\
        normalize_number m2 = Ok (Re.token_value m2) /\
        parse_information x = Ok (Re.token_value m1, Re.token_value m2)
    | _ => parse_information x = Raise ValueError
    end.
Proof.
  exists (Re.findall x). split; [intros ms'; apply Matches_iff|].
  split.
  { intros Hplain ms'. rewrite Matches_iff. now rewrite (scan_plain x Hplain). }
  unfold parse_information.
  destruct (Re.findall x) as [|m1 [|m2 [|m3 ms]]] eqn:Hf; try reflexivity.
  assert (Re.is_token Re.is_class m1 = true) as H1.
  { apply (findall_tokens x). rewrite Hf. apply list_elem_of_here. }
  assert (Re.is_token Re.is_class m2 = true) as H2.
  { apply (findall_tokens x). rewrite Hf. apply list_elem_of_further, list_elem_of_here. }
  unfold normalize_number. rewrite (int_token m1 H1), (int_token m2 H2).
  repeat split.
Qed.

Example get_addresses_sample :
  get_addresses_from_string (Text.of_string "foo 0x1 bar 0x1 0x2")
  = Ok (list_to_set [1; 1; 2]).
Proof. reflexivity. Qed.

(** C9, as the specification states it, fails. The text ["0x" U+0663],
    whose last character is an Arabic-Indic digit three, has no match of
    [0x] and 1 to 64 characters of [[0-9a-f]], so the claim gives the
    empty set for it; [get_addresses_from_string] returns the set of 3. *)
Lemma get_addresses_other_script :
  Re.Matches Re.is_ascii_hex [48; 120; 1635]%N []
  /\ get_addresses_from_string [48; 120; 1635]%N = Ok {[3]}.
Proof.
  split; [|reflexivity].
  apply Matches_iff. vm_compute. reflexivity.
Qed.

(** C9, amended. [prepare_params(None)] is the empty list. For every
    text, [get_addresses_from_string] returns the set of the integers
    denoted by the matches of the pattern [0x] and 1 to 64 characters each
    a decimal digit of any script or a letter [a] to [f]; being a set, it
    holds an integer once however many matches denote it. On a text that
    has no decimal digit outside ASCII these are the matches of [0x] and 1
    to 64 characters of [[0-9a-f]]. On ["foo 0x1 bar 0x1 0x2"] the function
    returns the set of 1 and 2. *)
Theorem prepare_params_None_and_addresses :
  prepare_params None = SList [] /\
  (forall text, exists ms,
      Re.Matches Re.is_class text ms /\
      (forallb Re.is_plain text = true -> Re.Matches Re.is_ascii_hex text ms) /\
      get_addresses_from_string text = Ok (list_to_set (map Re.token_value ms))) /\
  get_addresses_from_string (Text.of_string "foo 0x1 bar 0x1 0x2") = Ok {[1; 2]}.
Proof.
  split; [reflexivity|]. split.
  - intros text. exists (Re.findall text). split; [apply scan_Matches|].
    split.
    { intros Hplain. apply Matches_iff. now rewrite (scan_plain text Hplain). }
    unfold get_addresses_from_string.
    rewrite (rmap_total _ Re.token_value).
    + reflexivity.
    + intros m Hm. apply int_token. now apply (findall_tokens text).
  - reflexivity.
Qed.

(** ** Classification *)

Example classify_samples :
  map classify ["123"; " 12 "; "-7"; "1_000"; "0x1f"; "0x_1f"; "0X1F"; "ff"; "0x"; "abc"; ""; "12a"]
  = [Integer; Integer; Integer; Integer; HexAddress; HexAddress;
     ShortString; ShortString; ShortString; ShortString; ShortString; ShortString].
Proof. vm_compute. reflexivity. Qed.

Lemma is_string_str s :
  is_string (VStr s)
  = negb (succeeds (PyInt.int PyInt.Dec s))
    && negb (Str.startswith "0x" s && succeeds (PyInt.int PyInt.Hex s)).
Proof.
  unfold is_string, int_of, hex_of.
  now destruct (Str.startswith "0x" s).
Qed.

Lemma is_string_classify s :
  is_string (VStr s) = match classify s with ShortString => true | _ => false end.
Proof.
  rewrite is_string_str. unfold classify.
  destruct (succeeds (PyInt.int PyInt.Dec s)); [reflexivity|].
  now destruct (Str.startswith "0x" s && succeeds (PyInt.int PyInt.Hex s)).
Qed.

(** A text that starts with [0x] is no decimal numeral. *)
Lemma dec_rejects_0x s :
  Str.startswith "0x" s = true -> PyInt.int PyInt.Dec s = Raise ValueError.
Proof.
  intros [r ->]%startswith_spec. reflexivity.
Qed.

(** Every match of the pattern of the output parser is a hex address. *)
Lemma classify_token m : HexText.is_hex_text m = true -> classify m = HexAddress.
Proof.
  intros H. unfold classify.
  pose proof H as (ds & -> & _)%is_hex_text_spec.
  rewrite dec_rejects_0x by reflexivity.
  rewrite (int_hex_text _ H). reflexivity.
Qed.

Lemma more_digits_dec acc ds :
  Str.all Char.is_digit ds = true ->
  exists v, PyInt.more_digits PyInt.Dec acc ds = Some (v, "").
Proof.
  revert acc. induction ds as [|c ds IH]; intros acc H; [now exists acc|].
  simpl in H. apply andb_true_iff in H as [Hc Hds]. simpl.
  assert (exists d, PyInt.digit PyInt.Dec c = Some d) as [d ->].
  { revert Hc. destruct c as [[] [] [] [] [] [] [] []]; vm_compute;
      intros; try discriminate; eexists; reflexivity. }
  now apply IH.
Qed.

(** Every non-empty run of decimal digits is an integer. *)
Lemma classify_digits c ds :
  Str.all Char.is_digit (String c ds) = true -> classify (String c ds) = Integer.
Proof.
  intros H. simpl in H. apply andb_true_iff in H as [Hc Hds].
  unfold classify, PyInt.int, PyInt.parse.
  assert (Str.drop_while Char.is_int_space (String c ds) = String c ds) as ->.
  { simpl. revert Hc. destruct c as [[] [] [] [] [] [] [] []]; vm_compute;
      intros; try discriminate; reflexivity. }
  assert (PyInt.skip_sign (String c ds) = (false, String c ds)) as ->.
  { unfold PyInt.skip_sign. revert Hc.
    destruct c as [[] [] [] [] [] [] [] []]; vm_compute;
      intros; try discriminate; reflexivity. }
  cbv beta iota. unfold PyInt.skip_prefix, PyInt.digits.
  assert (exists d, PyInt.digit PyInt.Dec c = Some d) as [d ->].
  { revert Hc. destruct c as [[] [] [] [] [] [] [] []]; vm_compute;
      intros; try discriminate; eexists; reflexivity. }
  destruct (more_digits_dec d ds Hds) as [v ->]. reflexivity.
Qed.

(** C2. On text, [is_string] follows the fallthrough policy: a text that
    [int] reads in base 10 is an Integer; otherwise a text that starts
    with [0x] and that [int] reads in base 16 is a HexAddress; every other
    text is a ShortString. [is_string] is true on the ShortStrings and
    false on the other two kinds, so a text that passes either numeric
    test is never a ShortString. *)
Theorem is_string_fallthrough (s : string) :
  let dec := succeeds (PyInt.int PyInt.Dec s) in
  let hex := Str.startswith "0x" s && succeeds (PyInt.int PyInt.Hex s) in
  is_string (VStr s) = match classify s with ShortString => true | _ => false end
  /\ (classify s = Integer <-> dec = true)
  /\ (classify s = HexAddress <-> dec = false /\ hex = true)
  /\ (classify s = ShortString <-> dec = false /\ hex = false)
  /\ (is_string (VStr s) = true <-> dec = false /\ hex = false).
Proof.
  cbv zeta. rewrite is_string_classify. unfold classify.
  destruct (succeeds (PyInt.int PyInt.Dec s));
    destruct (Str.startswith "0x" s && succeeds (PyInt.int PyInt.Hex s));
    repeat split; intros; try discriminate; try tauto;
    try (destruct H; discriminate).
Qed.

(** ** Encoding *)

Lemma stringify_scalar_token x b : is_scalar x = true -> is_token (stringify x b) = true.
Proof.
  destruct x; try discriminate; intros _; simpl; [reflexivity|].
  now destruct (b && is_string (VStr s)).
Qed.

Lemma is_token_stringify x b : is_token (stringify x b) = is_scalar x.
Proof.
  destruct x; simpl; try reflexivity. now destruct (b && is_string (VStr s)).
Qed.

Lemma shape_stringify x b : shape_of_strs (stringify x b) = shape_of_val x.
Proof.
  induction x as [z|s|l IH|l IH] using pyval_ind; simpl.
  - reflexivity.
  - now destruct (b && is_string (VStr s)).
  - f_equal. rewrite map_map. induction IH; simpl; [reflexivity|]. now f_equal.
  - f_equal. rewrite map_map. induction IH; simpl; [reflexivity|]. now f_equal.
Qed.

Lemma tokens_stringify x b :
  tokens (stringify x b)
  = concat (map (fun y => tokens (stringify y b)) (scalars x)).
Proof.
  induction x as [z|s|l IH|l IH] using pyval_ind; simpl.
  - reflexivity.
  - now rewrite app_nil_r.
  - rewrite map_map. induction IH as [|y l Hy _ IHl]; simpl; [reflexivity|].
    rewrite map_app, concat_app. now f_equal.
  - rewrite map_map. induction IH as [|y l Hy _ IHl]; simpl; [reflexivity|].
    rewrite map_app, concat_app. now f_equal.
Qed.

Lemma flat_map_stringify l b :
  forallb is_token (map (fun y => stringify y b) l) = forallb is_scalar l.
Proof.
  induction l as [|y l IH]; simpl; [reflexivity|].
  now rewrite is_token_stringify, IH.
Qed.

Example stringify_nested :
  prepare_params (Some (VList [VList [VInt 1; VInt 2]; VStr "abc"]))
  = SList [SList [SStr "1"; SStr "2"]; SStr "6382179"].
Proof. vm_compute. reflexivity. Qed.

(** C3, as the specification states it, fails: the result of
    [prepare_params] on a list that holds a list is not a flat sequence
    of string tokens. *)
Lemma prepare_params_nested_not_flat :
  prepare_params (Some (VList [VList [VInt 1; VInt 2]; VInt 3]))
  = SList [SList [SStr "1"; SStr "2"]; SStr "3"]
  /\ flat (prepare_params (Some (VList [VList [VInt 1; VInt 2]; VInt 3]))) = false.
Proof. split; vm_compute; reflexivity. Qed.

(** C3, amended. [stringify] maps itself over the elements of a list or
    tuple and returns the list of the results: the result has the nesting
    of the input (a tuple becomes a list), and its string tokens, read
    from left to right, are the encodings of the scalars of the input in
    their order. Nothing is flattened: the result of [prepare_params] on
    a list or tuple is a flat sequence of string tokens exactly when every
    element of the input is a scalar. *)
Theorem stringify_keeps_nesting (x : pyval) (b : bool) :
  shape_of_strs (stringify x b) = shape_of_val x
  /\ tokens (stringify x b)
     = concat (map (fun y => tokens (stringify y b)) (scalars x))
  /\ (forall l,
        stringify (VList l) b = SList (map (fun y => stringify y b) l)
        /\ stringify (VTuple l) b = SList (map (fun y => stringify y b) l)
        /\ flat (prepare_params (Some (VList l))) = forallb is_scalar l
        /\ flat (prepare_params (Some (VTuple l))) = forallb is_scalar l).
Proof.
  split; [apply shape_stringify|]. split; [apply tokens_stringify|].
  intros l. repeat split; apply flat_map_stringify.
Qed.

Lemma stringify_str s :
  stringify (VStr s) true
  = SStr (match classify s with
          | ShortString => pretty (str_to_felt s)
          | _ => s
          end).
Proof.
  simpl. rewrite is_string_classify. now destruct (classify s).
Qed.

Example stringify_samples :
  stringify (VStr "abc") true = SStr "6382179"
  /\ stringify (VStr "abc") false = SStr "abc"
  /\ stringify (VStr "0x1f") true = SStr "0x1f"
  /\ stringify (VStr "42") true = SStr "42"
  /\ stringify (VInt (-42)) true = SStr "-42".
Proof. repeat split; vm_compute; reflexivity. Qed.

(** C8. On a text that classifies as Integer or HexAddress, [stringify]
    with short-string processing returns the text itself, so encoding the
    result again returns the same string. The felt encoding is applied to
    the texts that classify as ShortString and to no other: for every
    text the result is the felt numeral when the text is a ShortString
    and the text unchanged otherwise. *)
Theorem stringify_idempotent_on_numbers (s : string) :
  classify s = Integer \/ classify s = HexAddress ->
  stringify (VStr s) true = SStr s
  /\ stringify (as_val (stringify (VStr s) true)) true = stringify (VStr s) true
  /\ (forall t,
        stringify (VStr t) true
        = SStr (match classify t with
                | ShortString => pretty (str_to_felt t)
                | _ => t
                end)).
Proof.
  intros H.
  assert (stringify (VStr s) true = SStr s) as Hs.
  { rewrite stringify_str. now destruct H as [-> | ->]. }
  split; [exact Hs|]. split; [|apply stringify_str].
  rewrite Hs. exact Hs.
Qed.

Lemma stringify_idempotent_on_numbers_witness :
  classify "0x1f" = HexAddress
  /\ stringify (VStr "0x1f") true = SStr "0x1f"
  /\ stringify (as_val (stringify (VStr "0x1f") true)) true
     = stringify (VStr "0x1f") true.
Proof.
  split; [reflexivity|].
  pose proof (stringify_idempotent_on_numbers "0x1f" (or_intror eq_refl)) as H.
  split; [apply H | apply H].
Defined.

(** ** Network resolver *)

Section ResolverFacts.

Variable GATEWAYS : gmap string string.

Example resolve_custom :
  get_network_parameter_or_set_env
    (<["custom" := "http://node:1"]> ∅) "custom" ∅
  = (["--gateway_url=http://node:1"; "--feeder_gateway_url=http://node:1"], ∅).
Proof. reflexivity. Qed.

(** C6. For the name [mainnet] the resolver sets the variable
    [STARKNET_NETWORK] to [alpha-mainnet] and returns no argument; for
    [goerli] it sets it to [alpha-goerli] and returns no argument. For
    every other name it returns exactly two arguments, the gateway and
    the feeder gateway: both carry the URL the mapping has for the name,
    and both carry [None] when the mapping has none. *)
Theorem resolver_cases (environ : gmap string string) :
  get_network_parameter_or_set_env GATEWAYS "mainnet" environ
  = ([], <["STARKNET_NETWORK" := "alpha-mainnet"]> environ)
  /\ get_network_parameter_or_set_env GATEWAYS "goerli" environ
     = ([], <["STARKNET_NETWORK" := "alpha-goerli"]> environ)
  /\ (forall name,
        name <> "mainnet" -> name <> "goerli" ->
        (forall url,
            GATEWAYS !! name = Some url ->
            (get_network_parameter_or_set_env GATEWAYS name environ).1
            = ["--gateway_url=" +:+ url; "--feeder_gateway_url=" +:+ url])
        /\ (GATEWAYS !! name = None ->
            (get_network_parameter_or_set_env GATEWAYS name environ).1
            = ["--gateway_url=None"; "--feeder_gateway_url=None"])).
Proof.
  split; [reflexivity|]. split; [reflexivity|].
  intros name H1 H2. unfold get_network_parameter_or_set_env, fmt_get.
  destruct (decide (name = "mainnet")) as [|_]; [contradiction|].
  destruct (decide (name = "goerli")) as [|_]; [contradiction|].
  split; [intros url ->|intros ->]; reflexivity.
Qed.

(** C10. For a name other than [mainnet] and [goerli] the resolver leaves
    the process environment as it found it; the environment changes for
    the two reserved names only, and for these the returned list is
    empty. *)
Theorem resolver_frame (name : string) (environ : gmap string string) :
  name <> "mainnet" -> name <> "goerli" ->
  (get_network_parameter_or_set_env GATEWAYS name environ).2 = environ
  /\ (forall reserved env,
        (get_network_parameter_or_set_env GATEWAYS reserved env).2 <> env ->
        (reserved = "mainnet" \/ reserved = "goerli")
        /\ (get_network_parameter_or_set_env GATEWAYS reserved env).1 = [])
  /\ (get_network_parameter_or_set_env GATEWAYS "mainnet" environ).1 = []
  /\ (get_network_parameter_or_set_env GATEWAYS "goerli" environ).1 = [].
Proof.
  intros H1 H2. unfold get_network_parameter_or_set_env. split; [|split].
  - destruct (decide (name = "mainnet")) as [|_]; [contradiction|].
    now destruct (decide (name = "goerli")) as [|_]; [contradiction|].
  - intros reserved env.
    destruct (decide (reserved = "mainnet")) as [->|_]; [auto|].
    destruct (decide (reserved = "goerli")) as [->|_]; [auto|].
    simpl. congruence.
  - split; reflexivity.
Qed.

End ResolverFacts.

Lemma resolver_frame_witness :
  (get_network_parameter_or_set_env ∅ "localhost" {["HOME" := "/root"]}).2
  = {["HOME" := "/root"]}.
Proof.
  refine (proj1 (resolver_frame ∅ "localhost" {["HOME" := "/root"]} _ _));
    discriminate.
Defined.

(** ** Command builder *)

Example build_sample :
  (build (<["custom" := "http://node:1"]> ∅)
     {| operation := "invoke"; network := "custom";
        contract_name := Some "token"; arguments := Some ["--address"; "0x1"];
        inputs := Some (VList [VInt 1; VStr "abc"]); signature := None;
        max_fee := Some "0"; query_flag := Some "estimate_fee";
        overriding_path := None; mainnet_token := None |} ∅).1
  = map SStr
      ["starknet"; "invoke"; "--contract"; "artifacts/token.json";
       "--inputs"; "1"; "6382179"; "--max_fee"; "0"; "--estimate_fee";
       "--address"; "0x1"; "--gateway_url=http://node:1";
       "--feeder_gateway_url=http://node:1"; "--no_wallet"].
Proof. vm_compute. reflexivity. Qed.

Lemma characters_items s :
  items (SStr s) = characters s.
Proof.
  unfold items. induction s as [|c s IH]; [reflexivity|].
  cbn [list_ascii_of_string map characters]. now rewrite IH.
Qed.

Lemma stringify_encoding x : stringify x true = encoding x.
Proof.
  induction x as [z|s|l IH|l IH] using pyval_ind.
  - reflexivity.
  - apply stringify_str.
  - cbn [stringify encoding]. f_equal.
    induction IH as [|y l Hy _ IHl]; [reflexivity|]. cbn [map]. now f_equal.
  - cbn [stringify encoding]. f_equal.
    induction IH as [|y l Hy _ IHl]; [reflexivity|]. cbn [map]. now f_equal.
Qed.

Lemma items_encoded i : items (prepare_params (Some i)) = encoded_sequence i.
Proof.
  unfold prepare_params. rewrite stringify_encoding.
  destruct i as [z|s|l|l]; cbn [encoding encoded_sequence items];
    try reflexivity; apply characters_items.
Qed.

Lemma resolver_arguments GATEWAYS name environ :
  (get_network_parameter_or_set_env GATEWAYS name environ).1
  = network_arguments GATEWAYS name.
Proof.
  unfold get_network_parameter_or_set_env, network_arguments, fmt_get.
  destruct (decide (name = "mainnet")) as [->|H1].
  { rewrite decide_True by auto. reflexivity. }
  destruct (decide (name = "goerli")) as [->|H2].
  { rewrite decide_True by auto. reflexivity. }
  rewrite decide_False by tauto. cbn [fst].
  now destruct (GATEWAYS !! name).
Qed.

Example build_scalar_inputs :
  (build ∅
     {| operation := "call"; network := "goerli";
        contract_name := None; arguments := None;
        inputs := Some (VInt 12); signature := None;
        max_fee := None; query_flag := None;
        overriding_path := Some ("out", "out/abis"); mainnet_token := None |} ∅).1
  = map SStr ["starknet"; "call"; "--inputs"; "1"; "2"; "--no_wallet"].
Proof. vm_compute. reflexivity. Qed.

(** C4. The command [run_command] assembles is the concatenation, in
    this order, of: the tool and the operation; the contract path
    [{base_directory}/{contract_name}.json], whose directory is the first
    element of the overriding path pair when one is given and the build
    directory otherwise; the encoded inputs; the encoded signature; the
    max fee; the mainnet token; the query flag; the extra positional
    arguments; the network parameters; and the token [--no_wallet]. A
    component whose input is absent contributes nothing. The encoded
    inputs and signature are the encodings of the elements of the
    sequence given. The command is the same in every process environment,
    so a second call with the same inputs, made in the environment the
    first one left, produces the same command. *)
Theorem build_order (GATEWAYS : gmap string string) (c : call)
    (environ : gmap string string) :
  (build GATEWAYS c environ).1
  = [SStr "starknet"; SStr (operation c)]
    ++ part (contract_name c) (fun name =>
         [SStr "--contract"; SStr (base_directory c +:+ "/" +:+ name +:+ ".json")])
    ++ part (inputs c) (fun i => SStr "--inputs" :: encoded_sequence i)
    ++ part (signature c) (fun sg => SStr "--signature" :: encoded_sequence sg)
    ++ part (max_fee c) (fun fee => [SStr "--max_fee"; SStr fee])
    ++ part (mainnet_token c) (fun token => [SStr "--token"; SStr token])
    ++ part (query_flag c) (fun flag => [SStr ("--" +:+ flag)])
    ++ part (arguments c) (map SStr)
    ++ map SStr (network_arguments GATEWAYS (network c))
    ++ [SStr "--no_wallet"]
  /\ (build GATEWAYS c environ).2
     = (if decide (network c = "mainnet")
        then <["STARKNET_NETWORK" := "alpha-mainnet"]> environ
        else if decide (network c = "goerli")
        then <["STARKNET_NETWORK" := "alpha-goerli"]> environ
        else environ)
  /\ (forall environ', (build GATEWAYS c environ').1 = (build GATEWAYS c environ).1)
  /\ (build GATEWAYS c (build GATEWAYS c environ).2).1 = (build GATEWAYS c environ).1.
Proof.
  assert (forall e,
    (build GATEWAYS c e).1
    = [SStr "starknet"; SStr (operation c)]
      ++ part (contract_name c) (fun name =>
           [SStr "--contract"; SStr (base_directory c +:+ "/" +:+ name +:+ ".json")])
      ++ part (inputs c) (fun i => SStr "--inputs" :: encoded_sequence i)
      ++ part (signature c) (fun sg => SStr "--signature" :: encoded_sequence sg)
      ++ part (max_fee c) (fun fee => [SStr "--max_fee"; SStr fee])
      ++ part (mainnet_token c) (fun token => [SStr "--token"; SStr token])
      ++ part (query_flag c) (fun flag => [SStr ("--" +:+ flag)])
      ++ part (arguments c) (map SStr)
      ++ map SStr (network_arguments GATEWAYS (network c))
      ++ [SStr "--no_wallet"]) as Hcmd.
  { intros e. rewrite <- (resolver_arguments GATEWAYS (network c) e).
    unfold build, base_directory, part.
    destruct (get_network_parameter_or_set_env GATEWAYS (network c) e)
      as [extra env'].
    destruct c as [op net cn args inp sg fee qf ov tok]; cbn [fst snd
      operation network contract_name arguments inputs signature max_fee
      query_flag overriding_path mainnet_token].
    destruct inp as [inp|]; [rewrite (items_encoded inp)|];
      (destruct sg as [sg|]; [rewrite (items_encoded sg)|]);
      destruct cn, args, fee, qf, ov, tok; cbn [fst snd];
      rewrite <- ?app_assoc; cbn [app]; rewrite ?app_nil_r; reflexivity. }
  split; [apply Hcmd|]. split; [|split].
  - unfold build, get_network_parameter_or_set_env.
    destruct (decide (network c = "mainnet")); [reflexivity|].
    destruct (decide (network c = "goerli")); reflexivity.
  - intros environ'. now rewrite !Hcmd.
  - now rewrite !Hcmd.
Qed.

(** ** Network configuration *)

Example default_node_json_dumps : Json.dumps_indent2 networks = default_node_json.
Proof. vm_compute. reflexivity. Qed.

Example json_escape_sample :
  Json.text (String Json.quote (String Json.backslash (String "233"%char "a")))
  = String Json.quote
      (String Json.backslash
         (String Json.quote
            (String Json.backslash
               (String Json.backslash
                  (String Json.backslash ("u00e9a" +:+ String Json.quote "")))))).
Proof. vm_compute. reflexivity. Qed.

Section GatewaysFacts.

Variable json_load : string -> result (gmap string string).

(** C7. When [node.json] is absent, [get_gateways] does not raise: it
    writes the file with exactly the three default entries (the local
    endpoint and the two named remote ones), leaves every other file as it
    was, and returns the mapping of the same three entries, which is the
    mapping network resolution then uses. *)
Theorem get_gateways_bootstrap (files : gmap string string) :
  files !! NODE_FILENAME = None ->
  let GATEWAYS : gmap string string :=
    {[ "localhost" := "http://127.0.0.1:5050/";
       "goerli2" := "https://alpha4-2.starknet.io";
       "integration" := "https://external.integration.starknet.io" ]} in
  get_gateways json_load files
  = (Ok GATEWAYS, <["node.json" := default_node_json]> files)
  /\ size GATEWAYS = 3%nat
  /\ (forall environ,
        (get_network_parameter_or_set_env GATEWAYS "localhost" environ).1
        = ["--gateway_url=http://127.0.0.1:5050/";
           "--feeder_gateway_url=http://127.0.0.1:5050/"]
        /\ (get_network_parameter_or_set_env GATEWAYS "goerli2" environ).1
           = ["--gateway_url=https://alpha4-2.starknet.io";
              "--feeder_gateway_url=https://alpha4-2.starknet.io"]
        /\ (get_network_parameter_or_set_env GATEWAYS "integration" environ).1
           = ["--gateway_url=https://external.integration.starknet.io";
              "--feeder_gateway_url=https://external.integration.starknet.io"]).
Proof.
  intros Habsent GATEWAYS. split; [|split].
  - unfold get_gateways. rewrite Habsent. f_equal.
  - reflexivity.
  - intros environ. repeat split.
Qed.

End GatewaysFacts.

Lemma get_gateways_bootstrap_witness :
  (get_gateways (fun _ => Raise ValueError) {["deployments.txt" := "0x1:token"]}).2
  = {["node.json" := default_node_json; "deployments.txt" := "0x1:token"]}.
Proof.
  pose proof (get_gateways_bootstrap (fun _ => Raise ValueError)
                {["deployments.txt" := "0x1:token"]} eq_refl) as [H _].
  rewrite H. reflexivity.
Defined.

(** ** Invoker *)

Example strip_sample :
  Bytes.strip [x20; x09; x6f; x20; x6b; x0a; x0d; x20] = [x6f; x20; x6b]
  /\ Bytes.rstrip [x20; x09; x6f; x20; x6b; x0a; x0d; x20] = [x20; x09; x6f; x20; x6b].
Proof. split; reflexivity. Qed.

(** ["oék"], the euro sign, the face with open mouth and cold sweat, and
    three ill-formed sequences. *)
Example decode_sample :
  Bytes.decode [x6f; xc3; xa9; x6b] = Ok [111; 233; 107]%N
  /\ Bytes.decode [xe2; x82; xac] = Ok [8364]%N
  /\ Bytes.decode [xf0; x9f; x98; xb0] = Ok [128560]%N
  /\ Bytes.decode [x6f; xff] = Raise UnicodeDecodeError
  /\ Bytes.decode [xc3] = Raise UnicodeDecodeError
  /\ Bytes.decode [xed; xa0; x80] = Raise UnicodeDecodeError.
Proof. repeat split; reflexivity. Qed.

Example run_command_failures :
  run_command scripted ∅ sample_call (sample_state [Ok exit_no_fee; Ok exit_no_fee])
  = (Ok [], {| environ := ∅; log := [HintMaxFee]; os := [] |})
  /\ run_command scripted ∅ sample_call (sample_state [Ok exit_other; Ok exit_other])
     = (Ok [], {| environ := ∅; log := []; os := [] |})
  /\ run_command scripted ∅ sample_call (sample_state [Ok exit_other; Ok exit_hint])
     = (Ok [], {| environ := ∅; log := [HintMaxFee]; os := [] |}).
Proof. repeat split; vm_compute; reflexivity. Qed.

(** C5, as the specification states it, fails: on exit code zero the
    function strips the blanks of both ends of the standard output, not
    the trailing ones only. With the output [" ok\n"] it returns ["ok"],
    and the output with its trailing blanks removed is [" ok"]. *)
Lemma run_command_strips_both_ends :
  (run_command scripted ∅ sample_call (sample_state [Ok exit_ok])).1
  = Ok (Text.of_string "ok")
  /\ Bytes.decode (Bytes.rstrip (stdout exit_ok)) = Ok (Text.of_string " ok")
  /\ (run_command scripted ∅ sample_call (sample_state [Ok exit_ok])).1
     <> Bytes.decode (Bytes.rstrip (stdout exit_ok)).
Proof.
  split; [vm_compute; reflexivity|]. split; [vm_compute; reflexivity|].
  vm_compute. discriminate.
Qed.

Section InvokerFacts.

Context {world : Type}.
Variable spawn :
  list strs -> gmap string string -> world -> result completed * world.
Variable GATEWAYS : gmap string string.

(** C5, amended. Let the launch of the assembled command complete. On
    exit code zero [run_command] returns the standard output with the
    blanks of both ends stripped, decoded as UTF-8; it launches nothing
    more and logs nothing. On any other exit code it launches the command
    a second time, and when that launch completes and its standard error
    decodes as UTF-8, it returns the empty string, whatever the text of
    the standard error: the text decides the hint that is logged, and the
    value returned does not tell one cause of failure from another. *)
Theorem run_command_result (c : call) (st : state) (p : completed) (w : world) :
  let command := (build GATEWAYS c (environ st)).1 in
  let env := (build GATEWAYS c (environ st)).2 in
  spawn command env (os st) = (Ok p, w) ->
  (returncode p = 0 ->
   run_command spawn GATEWAYS c st
   = (Bytes.decode (Bytes.strip (stdout p)),
      {| environ := env; log := log st; os := w |}))
  /\ (returncode p <> 0 ->
      forall q w' err_msg,
        spawn command env w = (Ok q, w') ->
        Bytes.decode (stderr q) = Ok err_msg ->
        run_command spawn GATEWAYS c st
        = (Ok [],
           {| environ := env;
              log :=
                log st
                ++ (if Text.contains
                         (Text.of_string "max_fee must be bigger than 0") err_msg
                    then [HintMaxFee]
                    else if Text.contains
                              (Text.of_string
                                 "transactions should go through the __execute__ entrypoint.")
                              err_msg
                    then [HintAccount]
                    else []);
              os := w' |})).
Proof.
  intros command env Hspawn. unfold run_command.
  subst command env. destruct (build GATEWAYS c (environ st)) as [command env].
  cbn [fst snd] in *. unfold invoke. rewrite Hspawn. split.
  - intros ->. reflexivity.
  - intros Hcode q w' err_msg Hagain Herr.
    apply Z.eqb_neq in Hcode. rewrite Hcode, Hagain, Herr.
    destruct (Text.contains _ err_msg); [reflexivity|].
    destruct (Text.contains _ err_msg); [reflexivity|].
    now rewrite app_nil_r.
Qed.

End InvokerFacts.

Lemma run_command_result_witness :
  run_command scripted ∅ sample_call (sample_state [Ok exit_ok])
  = (Ok (Text.of_string "ok"), {| environ := ∅; log := []; os := [] |})
  /\ run_command scripted ∅ sample_call
       (sample_state [Ok exit_other; Ok exit_hint; Ok exit_ok])
     = (Ok [], {| environ := ∅; log := [HintMaxFee]; os := [Ok exit_ok] |}).
Proof.
  split.
  - exact (proj1 (run_command_result scripted ∅ sample_call
                    (sample_state [Ok exit_ok]) exit_ok [] eq_refl) eq_refl).
  - refine (proj2 (run_command_result scripted ∅ sample_call
                     (sample_state [Ok exit_other; Ok exit_hint; Ok exit_ok])
                     exit_other [Ok exit_hint; Ok exit_ok] eq_refl) _
                  exit_hint [Ok exit_ok]
                  (128560%N :: Text.of_string " max_fee must be bigger than 0")
                  eq_refl eq_refl).
    discriminate.
Defined.

(** * Further properties of the module *)

(** ** Output parser *)

Section ParserFacts.

Lemma Matches_rebuild cls s ms :
  Re.Matches cls s ms -> exists gap l, map fst l = ms /\ s = rebuild gap l.
Proof.
  induction 1 as [|c s ms _ _ (gap & l & Hl & ->)|m r ms _ _ _ (gap & l & Hl & ->)].
  - now exists [], [].
  - exists (c :: gap), l. split; [exact Hl|reflexivity].
  - exists [], ((m, gap) :: l). split; [simpl; now f_equal|reflexivity].
Qed.

(** X1. The matches of a text lie in it one after the other, in the
    order [findall] lists them and without overlap: the text is a leading
    gap followed by each match and the gap behind it. *)
Theorem findall_in_order (text : list N) :
  exists gap l,
    map fst l = Re.findall text
    /\ text = rebuild gap l
    /\ (sum_list (map (@length N) (Re.findall text)) <= length text)%nat.
Proof.
  destruct (Matches_rebuild _ _ _ (scan_Matches Re.is_class text))
    as (gap & l & Hl & Ht).
  exists gap, l. split; [exact Hl|]. split; [exact Ht|].
  unfold Re.findall. rewrite <- Hl. rewrite Ht. unfold rebuild. rewrite length_app.
  clear. induction l as [|[m g] l IH]; simpl; [lia|].
  rewrite !length_app. lia.
Qed.

Lemma digit_value_bound c : Re.is_class c = true -> 0 <= Re.digit_value c < 16.
Proof.
  unfold Re.is_class, Unicode.is_decimal, Re.digit_value.
  destruct (Unicode.decimal c) as [d|] eqn:Hdec.
  - intros _. pose proof (decimal_digit c d Hdec). lia.
  - rewrite orb_false_l. intros [H1 H2]%andb_true_iff.
    apply N.leb_le in H1, H2. lia.
Qed.

Lemma digits_value_bound acc ds :
  forallb Re.is_class ds = true -> 0 <= acc ->
  acc * 16 ^ Z.of_nat (length ds)
  <= Re.digits_value acc ds
  < (acc + 1) * 16 ^ Z.of_nat (length ds).
Proof.
  revert acc. induction ds as [|c ds IH]; intros acc Hall Hacc.
  - simpl. lia.
  - cbn [forallb] in Hall. apply andb_true_iff in Hall as [Hc Hds].
    pose proof (digit_value_bound c Hc) as Hd.
    cbn [Re.digits_value length].
    rewrite Nat2Z.inj_succ, Z.pow_succ_r by lia.
    specialize (IH (acc * 16 + Re.digit_value c) Hds ltac:(lia)).
    assert (0 < 16 ^ Z.of_nat (length ds)) by (apply Z.pow_pos_nonneg; lia).
    nia.
Qed.

Lemma token_value_bound m :
  Re.is_token Re.is_class m = true -> 0 <= Re.token_value m < 2 ^ 256.
Proof.
  intros (ds & -> & Hall & _ & Hlen)%is_token_spec.
  unfold Re.token_value. change (drop 2 ([48; 120]%N ++ ds)) with ds.
  pose proof (digits_value_bound 0 ds Hall ltac:(lia)) as [Hlo Hhi].
  split; [lia|]. eapply Z.lt_le_trans; [exact Hhi|].
  change (2 ^ 256) with (16 ^ 64). rewrite Z.mul_1_l.
  apply Z.pow_le_mono_r; lia.
Qed.

Lemma get_addresses_value text :
  get_addresses_from_string text
  = Ok (list_to_set (map Re.token_value (Re.findall text))).
Proof.
  unfold get_addresses_from_string. rewrite (rmap_total _ Re.token_value).
  - reflexivity.
  - intros m Hm. apply int_token. now apply (findall_tokens text).
Qed.

(** X2. Every integer [get_addresses_from_string] returns is at least 0
    and below 2^256: a match has at most 64 hexadecimal digits. *)
Theorem get_addresses_in_range (text : list N) (addresses : gset Z) (z : Z) :
  get_addresses_from_string text = Ok addresses ->
  z ∈ addresses ->
  0 <= z < 2 ^ 256.
Proof.
  rewrite get_addresses_value. intros [= <-] Hz.
  apply elem_of_list_to_set, list_elem_of_fmap in Hz as (m & -> & Hm).
  apply token_value_bound. now apply (findall_tokens text).
Qed.

Lemma get_addresses_in_range_witness :
  0 <= 255 < 2 ^ 256.
Proof.
  refine (get_addresses_in_range (Text.of_string "tx 0xff") {[255]} 255 eq_refl _).
  now apply elem_of_singleton.
Defined.

Lemma parse_information_Ok x a t :
  parse_information x = Ok (a, t) ->
  exists m1 m2,
    Re.findall x = [m1; m2]
    /\ Re.is_token Re.is_class m1 = true /\ Re.is_token Re.is_class m2 = true
    /\ a = Re.token_value m1 /\ t = Re.token_value m2.
Proof.
  unfold parse_information.
  destruct (Re.findall x) as [|m1 [|m2 [|m3 ms]]] eqn:Hf; try discriminate.
  assert (Re.is_token Re.is_class m1 = true) as H1.
  { apply (findall_tokens x). rewrite Hf. apply list_elem_of_here. }
  assert (Re.is_token Re.is_class m2 = true) as H2.
  { apply (findall_tokens x). rewrite Hf. apply list_elem_of_further, list_elem_of_here. }
  unfold normalize_number. rewrite (int_token m1 H1), (int_token m2 H2).
  intros [= <- <-]. now exists m1, m2.
Qed.

(** X3. When [parse_information] returns, the address and the
    transaction hash are both at least 0 and below 2^256, and they are
    exactly the integers [get_addresses_from_string] finds in the same
    text. *)
Theorem parse_information_agrees_with_addresses (x : list N) (a t : Z) :
  parse_information x = Ok (a, t) ->
  0 <= a < 2 ^ 256
  /\ 0 <= t < 2 ^ 256
  /\ get_addresses_from_string x = Ok {[a; t]}.
Proof.
  intros (m1 & m2 & Hf & H1 & H2 & -> & ->)%parse_information_Ok.
  split; [now apply token_value_bound|]. split; [now apply token_value_bound|].
  rewrite get_addresses_value, Hf. f_equal. simpl.
  now rewrite union_empty_r_L.
Qed.

Lemma parse_information_agrees_with_addresses_witness :
  get_addresses_from_string (Text.of_string "address 0x1a2b tx 0x3c4d")
  = Ok {[6699; 15437]}.
Proof.
  exact (proj2 (proj2 (parse_information_agrees_with_addresses
                         (Text.of_string "address 0x1a2b tx 0x3c4d")
                         6699 15437 eq_refl))).
Defined.

Lemma findall_no_prefix (s : list N) :
  Text.contains [48; 120]%N s = false -> Re.findall s = [].
Proof.
  induction s as [|c s IH]; [reflexivity|].
  cbn [Text.contains]. intros [Hp Hs]%orb_false_iff.
  unfold Re.findall. rewrite scan_cons. unfold Re.match_at. rewrite Hp.
  now apply IH.
Qed.

(** X4. A text in which [0x] does not occur, the empty text among them,
    has no match: [parse_information] raises [ValueError] on it and
    [get_addresses_from_string] returns the empty set. *)
Theorem no_prefix_no_address (text : list N) :
  Text.contains (Text.of_string "0x") text = false ->
  Re.findall text = []
  /\ parse_information text = Raise ValueError
  /\ get_addresses_from_string text = Ok ∅.
Proof.
  intros H%findall_no_prefix. split; [exact H|]. split.
  - unfold parse_information. now rewrite H.
  - rewrite get_addresses_value, H. reflexivity.
Qed.

Lemma no_prefix_no_address_witness :
  parse_information [] = Raise ValueError
  /\ get_addresses_from_string (Text.of_string "Invoke transaction was sent.")
     = Ok ∅.
Proof.
  split.
  - exact (proj1 (proj2 (no_prefix_no_address [] eq_refl))).
  - exact (proj2 (proj2 (no_prefix_no_address
                           (Text.of_string "Invoke transaction was sent.") eq_refl))).
Defined.

Lemma of_string_class c :
  Re.is_class (N_of_ascii c) = true -> Char.is_re_hex c = true.
Proof.
  destruct c as [[] [] [] [] [] [] [] []]; vm_compute; intros; congruence.
Qed.

Lemma of_string_all s :
  forallb Re.is_class (Text.of_string s) = true ->
  Str.all Char.is_re_hex s = true.
Proof.
  induction s as [|c s IH]; [reflexivity|].
  unfold Text.of_string. cbn [list_ascii_of_string map forallb Str.all].
  intros [Hc Hs]%andb_true_iff. rewrite (of_string_class c Hc). now apply IH.
Qed.

Lemma of_string_length s : length (Text.of_string s) = String.length s.
Proof.
  unfold Text.of_string. induction s as [|c s IH]; [reflexivity|].
  cbn [list_ascii_of_string map length String.length]. now rewrite IH.
Qed.

Lemma of_string_token m :
  Re.is_token Re.is_class (Text.of_string m) = true ->
  HexText.is_hex_text m = true.
Proof.
  intros (ds & Hm & Hall & Hlen)%is_token_spec.
  destruct m as [|a [|b m]]; try discriminate.
  unfold Text.of_string in Hm. cbn [list_ascii_of_string map app] in Hm.
  injection Hm as Ha Hb Hds.
  assert (a = "0"%char) as ->.
  { rewrite <- (ascii_N_embedding a), Ha. reflexivity. }
  assert (b = "x"%char) as ->.
  { rewrite <- (ascii_N_embedding b), Hb. reflexivity. }
  apply is_hex_text_spec. exists m. split; [reflexivity|].
  change (map N_of_ascii (list_ascii_of_string m)) with (Text.of_string m) in Hds.
  subst ds. split; [now apply of_string_all|].
  now rewrite <- of_string_length.
Qed.

(** X5. What the output parser matches is never taken for an alias: every
    match of a text classifies as a hex address, [is_alias] is false on
    it, and [stringify] with short-string processing returns it
    unchanged. *)
Theorem matches_are_not_aliases (text m : string) :
  Text.of_string m ∈ Re.findall (Text.of_string text) ->
  classify m = HexAddress
  /\ is_alias (VStr m) = false
  /\ stringify (VStr m) true = SStr m.
Proof.
  intros Hm%findall_tokens%of_string_token.
  pose proof (classify_token m Hm) as Hc.
  split; [exact Hc|]. split.
  - unfold is_alias. now rewrite is_string_classify, Hc.
  - now rewrite stringify_str, Hc.
Qed.

Lemma matches_are_not_aliases_witness :
  is_alias (VStr "0x1a2b") = false.
Proof.
  refine (proj1 (proj2 (matches_are_not_aliases "address 0x1a2b" "0x1a2b" _))).
  apply list_elem_of_here.
Defined.

End ParserFacts.

(** ** Encoding *)

Section EncodingFacts.

Lemma pretty_char_digit d :
  (d < 10)%N ->
  PyInt.digit PyInt.Dec (pretty_N_char d) = Some (Z.of_N d)
  /\ Char.is_int_space (pretty_N_char d) = false
  /\ PyInt.skip_sign (String (pretty_N_char d) "") = (false, String (pretty_N_char d) "").
Proof.
  intros H.
  assert (d = 0 \/ d = 1 \/ d = 2 \/ d = 3 \/ d = 4 \/ d = 5 \/ d = 6
          \/ d = 7 \/ d = 8 \/ d = 9)%N as Hd by lia.
  repeat (destruct Hd as [-> | Hd]; [repeat split|]). subst. repeat split.
Qed.

Lemma more_digits_pretty_go x s :
  PyInt.more_digits PyInt.Dec 0 (pretty_N_go x s)
  = PyInt.more_digits PyInt.Dec (Z.of_N x) s.
Proof.
  revert s. induction (N.lt_wf_0 x) as [x _ IH]. intros s.
  destruct (N.eq_dec x 0%N) as [-> | Hx]; [reflexivity|].
  rewrite pretty_N_go_step by lia.
  rewrite IH by (apply N.div_lt; lia).
  cbn [PyInt.more_digits].
  destruct (pretty_char_digit (x `mod` 10)%N) as [-> _]; [apply N.mod_lt; lia|].
  f_equal. change (PyInt.base PyInt.Dec) with 10.
  rewrite (N.div_mod x 10) at 3 by lia. lia.
Qed.

Lemma pretty_go_head x s :
  (0 < x)%N ->
  exists d s', (d < 10)%N /\ pretty_N_go x s = String (pretty_N_char d) s'.
Proof.
  revert s. induction (N.lt_wf_0 x) as [x _ IH]. intros s Hx.
  rewrite pretty_N_go_step by lia.
  destruct (N.eq_dec (x `div` 10)%N 0%N) as [Hq | Hq].
  - exists (x `mod` 10)%N, s. split; [apply N.mod_lt; lia|].
    now rewrite Hq, pretty_N_go_0.
  - apply IH; [apply N.div_lt; lia|]. apply N.neq_0_lt_0. exact Hq.
Qed.

Lemma digits_pretty_pos p :
  exists d s',
    (d < 10)%N
    /\ pretty (N.pos p) = String (pretty_N_char d) s'
    /\ PyInt.digits PyInt.Dec (pretty (N.pos p)) = Some (Z.pos p, "").
Proof.
  unfold pretty, pretty_N. destruct (decide (N.pos p = 0%N)) as [|_]; [discriminate|].
  destruct (pretty_go_head (N.pos p) "" ltac:(lia)) as (d & s' & Hd & Hs).
  exists d, s'. split; [exact Hd|]. split; [exact Hs|].
  pose proof (more_digits_pretty_go (N.pos p) "") as Hm.
  rewrite Hs in Hm |- *. cbn [PyInt.more_digits PyInt.digits] in Hm |- *.
  destruct (pretty_char_digit d Hd) as [Hdig _].
  rewrite Hdig in Hm |- *. exact Hm.
Qed.

Lemma parse_pretty z : PyInt.parse PyInt.Dec (pretty z) = Some z.
Proof.
  destruct z as [|p|p]; [reflexivity| |].
  - change (pretty (Z.pos p)) with (pretty (N.pos p)).
    destruct (digits_pretty_pos p) as (d & s' & Hd & Hs & Hdig).
    unfold PyInt.parse. rewrite Hs in Hdig |- *.
    destruct (pretty_char_digit d Hd) as (_ & Hsp & Hsg).
    cbn [Str.drop_while]. rewrite Hsp.
    assert (PyInt.skip_sign (String (pretty_N_char d) s')
            = (false, String (pretty_N_char d) s')) as ->.
    { unfold PyInt.skip_sign in *.
      destruct (Char.eqb (pretty_N_char d) "-"); [discriminate|].
      destruct (Char.eqb (pretty_N_char d) "+"); [discriminate|reflexivity]. }
    cbv beta iota. unfold PyInt.skip_prefix. now rewrite Hdig.
  - change (pretty (Z.neg p)) with ("-" +:+ pretty (N.pos p)).
    destruct (digits_pretty_pos p) as (d & s' & Hd & Hs & Hdig).
    unfold PyInt.parse.
    change (Str.drop_while Char.is_int_space ("-" +:+ pretty (N.pos p)))
      with ("-" +:+ pretty (N.pos p)).
    change (PyInt.skip_sign ("-" +:+ pretty (N.pos p)))
      with (true, pretty (N.pos p)).
    cbv beta iota. unfold PyInt.skip_prefix. now rewrite Hdig.
Qed.

Lemma int_pretty (z : Z) : PyInt.int PyInt.Dec (pretty z) = Ok z.
Proof. unfold PyInt.int. now rewrite parse_pretty. Qed.

Lemma classify_pretty (z : Z) : classify (pretty z) = Integer.
Proof. unfold classify. now rewrite int_pretty. Qed.

(** X6. The decimal text [stringify] writes for an integer parameter
    reads back as that integer: [int] of it returns the integer, so the
    text classifies as Integer and is never taken for a short string. *)
Theorem integer_text_round_trip (z : Z) :
  stringify (VInt z) true = SStr (pretty z)
  /\ int_of (VStr (pretty z)) = Ok z
  /\ classify (pretty z) = Integer
  /\ is_string (VStr (pretty z)) = false.
Proof.
  split; [reflexivity|]. split; [apply int_pretty|].
  split; [apply classify_pretty|].
  now rewrite is_string_classify, classify_pretty.
Qed.

Lemma stringify_scalar_again s :
  stringify (as_val (stringify (VStr s) true)) true = stringify (VStr s) true.
Proof.
  rewrite (stringify_str s). destruct (classify s) eqn:Hc;
    cbn [as_val]; rewrite stringify_str.
  - now rewrite Hc.
  - now rewrite Hc.
  - now rewrite classify_pretty.
Qed.

(** X7. Encoding is idempotent on every value: applying [stringify] with
    short-string processing to its own result returns that result. A
    short string becomes the decimal numeral of its felt, which is an
    Integer and is left alone the second time; the felt encoding is
    never applied twice. *)
Theorem stringify_idempotent (x : pyval) :
  stringify (as_val (stringify x true)) true = stringify x true.
Proof.
  induction x as [z|s|l IH|l IH] using pyval_ind.
  - change (stringify (VInt z) true) with (SStr (pretty z)).
    cbn [as_val]. rewrite stringify_str.
    now rewrite classify_pretty.
  - apply stringify_scalar_again.
  - cbn [stringify as_val]. f_equal. rewrite !map_map.
    induction IH as [|y l Hy _ IHl]; [reflexivity|]. cbn [map]. now f_equal.
  - cbn [stringify as_val]. f_equal. rewrite !map_map.
    induction IH as [|y l Hy _ IHl]; [reflexivity|]. cbn [map]. now f_equal.
Qed.

End EncodingFacts.

(** ** Classification over all parameter values *)

(** X8. The integer test and the hex test of [is_string] never both
    succeed on a text: a text that starts with [0x] is no decimal
    numeral. The outcome of the classification therefore does not depend
    on the order in which the two tests are made. *)
Theorem numeric_tests_exclusive (s : string) :
  succeeds (int_of (VStr s)) && succeeds (hex_of (VStr s)) = false.
Proof.
  unfold int_of, hex_of. destruct (Str.startswith "0x" s) eqn:Hp.
  - now rewrite dec_rejects_0x.
  - apply andb_false_r.
Qed.

(** X9. [is_string] over all parameter values: it is false on every
    integer, true on every list and tuple (neither test accepts one), and
    true on a text exactly when the text is a ShortString. *)
Theorem is_string_by_value (x : pyval) :
  is_string x
  = match x with
    | VInt _ => false
    | VStr s => match classify s with ShortString => true | _ => false end
    | VList _ | VTuple _ => true
    end.
Proof.
  destruct x as [z|s|l|l]; try reflexivity. apply is_string_classify.
Qed.

(** ** Command builder *)

Section BuilderFacts.

Variable GATEWAYS : gmap string string.

Lemma build_command (c : call) (environ : gmap string string) :
  (build GATEWAYS c environ).1
  = [SStr "starknet"; SStr (operation c)]
    ++ part (contract_name c) (fun name =>
         [SStr "--contract"; SStr (base_directory c +:+ "/" +:+ name +:+ ".json")])
    ++ part (inputs c) (fun i => SStr "--inputs" :: items (prepare_params (Some i)))
    ++ part (signature c) (fun sg => SStr "--signature" :: items (prepare_params (Some sg)))
    ++ part (max_fee c) (fun fee => [SStr "--max_fee"; SStr fee])
    ++ part (mainnet_token c) (fun token => [SStr "--token"; SStr token])
    ++ part (query_flag c) (fun flag => [SStr ("--" +:+ flag)])
    ++ part (arguments c) (map SStr)
    ++ map SStr (get_network_parameter_or_set_env GATEWAYS (network c) environ).1
    ++ [SStr "--no_wallet"].
Proof.
  unfold build, base_directory, part.
  destruct (get_network_parameter_or_set_env GATEWAYS (network c) environ)
    as [extra env'].
  destruct c as [op net cn args inp sg fee qf ov tok]; simpl.
  destruct cn, args, inp, sg, fee, qf, ov, tok; simpl;
    rewrite <- ?app_assoc; simpl; rewrite ?app_nil_r; reflexivity.
Qed.

Lemma build_environ (c : call) (environ : gmap string string) :
  (build GATEWAYS c environ).2
  = (get_network_parameter_or_set_env GATEWAYS (network c) environ).2.
Proof.
  unfold build.
  now destruct (get_network_parameter_or_set_env GATEWAYS (network c) environ).
Qed.

Lemma forallb_is_token_SStr (l : list string) :
  forallb is_token (map SStr l) = true.
Proof. induction l; simpl; auto. Qed.

Lemma items_tokens (i : pyval) :
  forallb is_token (items (prepare_params (Some i)))
  = match i with
    | VList l | VTuple l => forallb is_scalar l
    | _ => true
    end.
Proof.
  assert (forall s, forallb is_token (items (SStr s)) = true) as Hs.
  { intros s. unfold items. induction (list_ascii_of_string s); simpl; auto. }
  destruct i as [z|s|l|l]; unfold prepare_params; cbn [stringify].
  - apply Hs.
  - destruct (true && is_string (VStr s)); apply Hs.
  - apply flat_map_stringify.
  - apply flat_map_stringify.
Qed.

(** X10. Every element of the assembled command is a text exactly when
    neither [inputs] nor [signature] holds a list or tuple among its
    elements. A nested parameter list puts a list into the command. *)
Theorem command_is_text (c : call) (environ : gmap string string) :
  forallb is_token (build GATEWAYS c environ).1
  = shallow (inputs c) && shallow (signature c).
Proof.
  rewrite build_command. rewrite !forallb_app.
  rewrite forallb_is_token_SStr.
  assert (forallb is_token
            (part (inputs c)
               (fun i => SStr "--inputs" :: items (prepare_params (Some i))))
          = shallow (inputs c)) as ->.
  { destruct (inputs c) as [i|]; [|reflexivity]. cbn [part forallb is_token].
    rewrite items_tokens. now destruct i. }
  assert (forallb is_token
            (part (signature c)
               (fun i => SStr "--signature" :: items (prepare_params (Some i))))
          = shallow (signature c)) as ->.
  { destruct (signature c) as [i|]; [|reflexivity]. cbn [part forallb is_token].
    rewrite items_tokens. now destruct i. }
  destruct (contract_name c), (max_fee c), (mainnet_token c), (query_flag c),
    (arguments c); cbn [part forallb is_token];
    rewrite ?forallb_is_token_SStr, ?andb_true_l, ?andb_true_r; reflexivity.
Qed.

End BuilderFacts.

(** ** Network resolver and environment *)

Section EnvironmentFacts.

Variable GATEWAYS : gmap string string.

Lemma resolver_other_keys (name key : string) (environ : gmap string string) :
  key <> "STARKNET_NETWORK" ->
  (get_network_parameter_or_set_env GATEWAYS name environ).2 !! key
  = environ !! key.
Proof.
  intros Hk. unfold get_network_parameter_or_set_env.
  repeat case_decide; cbn [snd]; try reflexivity;
    now rewrite lookup_insert_ne.
Qed.

(** X11. The resolver never unsets [STARKNET_NETWORK]: once a call for
    [mainnet] or [goerli] has set it, a later call for any other network
    returns the two gateway arguments and leaves the variable at the
    value of the reserved network; a later call for the other reserved
    name replaces the value. *)
Theorem resolver_never_unsets (reserved name : string)
    (environ : gmap string string) :
  reserved = "mainnet" \/ reserved = "goerli" ->
  name <> "mainnet" -> name <> "goerli" ->
  let marker := if decide (reserved = "mainnet") then "alpha-mainnet" else "alpha-goerli" in
  let after := (get_network_parameter_or_set_env GATEWAYS reserved environ).2 in
  (get_network_parameter_or_set_env GATEWAYS name after).2 !! "STARKNET_NETWORK"
  = Some marker
  /\ length (get_network_parameter_or_set_env GATEWAYS name after).1 = 2%nat
  /\ (get_network_parameter_or_set_env GATEWAYS "goerli" after).2 !! "STARKNET_NETWORK"
     = Some "alpha-goerli"
  /\ (get_network_parameter_or_set_env GATEWAYS "mainnet" after).2 !! "STARKNET_NETWORK"
     = Some "alpha-mainnet".
Proof.
  intros Hres H1 H2 marker after.
  assert (after !! "STARKNET_NETWORK" = Some marker) as Hafter.
  { subst after marker. destruct Hres as [-> | ->]; cbn; apply lookup_insert_eq. }
  unfold get_network_parameter_or_set_env at 1 2.
  destruct (decide (name = "mainnet")) as [|_]; [contradiction|].
  destruct (decide (name = "goerli")) as [|_]; [contradiction|].
  cbn [fst snd length]. split; [exact Hafter|]. split; [reflexivity|].
  split; cbn; apply lookup_insert_eq.
Qed.

End EnvironmentFacts.

Lemma resolver_never_unsets_witness :
  (get_network_parameter_or_set_env ∅ "localhost"
     (get_network_parameter_or_set_env ∅ "mainnet" ∅).2).2 !! "STARKNET_NETWORK"
  = Some "alpha-mainnet".
Proof.
  refine (proj1 (resolver_never_unsets ∅ "mainnet" "localhost" ∅ (or_introl eq_refl) _ _));
    discriminate.
Defined.

(** ** Invoker *)

Section RunFacts.

Context {world : Type}.
Variable spawn :
  list strs -> gmap string string -> world -> result completed * world.
Variable GATEWAYS : gmap string string.

Lemma run_command_unfold (c : call) (st : state) :
  run_command spawn GATEWAYS c st
  = let command := (build GATEWAYS c (environ st)).1 in
    let env := (build GATEWAYS c (environ st)).2 in
    let r := invoke spawn command env (log st) (os st) in
    (r.1.1, {| environ := env; log := r.1.2; os := r.2 |}).
Proof.
  unfold run_command. destruct (build GATEWAYS c (environ st)) as [command env].
  cbn [fst snd]. now destruct (invoke spawn command env (log st) (os st)) as [[r lg] w].
Qed.

(** X12. [run_command] changes no variable of the process environment
    other than [STARKNET_NETWORK], whatever the network, the outcome of
    the launches and the result; for a network other than [mainnet] and
    [goerli] it leaves the whole environment as it was. *)
Theorem run_command_environment (c : call) (st : state) :
  (forall key, key <> "STARKNET_NETWORK" ->
     environ (run_command spawn GATEWAYS c st).2 !! key = environ st !! key)
  /\ (network c <> "mainnet" -> network c <> "goerli" ->
      environ (run_command spawn GATEWAYS c st).2 = environ st).
Proof.
  rewrite run_command_unfold. cbn [snd environ]. rewrite build_environ. split.
  - intros key Hk. now apply resolver_other_keys.
  - intros H1 H2. unfold get_network_parameter_or_set_env.
    destruct (decide (network c = "mainnet")) as [|_]; [contradiction|].
    now destruct (decide (network c = "goerli")) as [|_]; [contradiction|].
Qed.

Lemma invoke_log (command : list strs) (env : gmap string string)
    (lg : list hint) (w : world) :
  exists hints,
    (invoke spawn command env lg w).1.2 = lg ++ hints
    /\ (length hints <= 1)%nat
    /\ (hints <> [] -> (invoke spawn command env lg w).1.1 = Ok []).
Proof.
  assert (forall (r : result (list N)) (w' : world),
             exists hints : list hint,
               (r, lg, w').1.2 = lg ++ hints
               /\ (length hints <= 1)%nat
               /\ (hints <> [] -> (r, lg, w').1.1 = Ok [])) as Hnone.
  { intros r w'. exists []. rewrite app_nil_r. cbn.
    split; [reflexivity|]. split; [lia|congruence]. }
  unfold invoke.
  destruct (spawn command env w) as [[p|e] w1]; [|apply Hnone].
  destruct (returncode p =? 0); [apply Hnone|].
  destruct (spawn command env w1) as [[q|e] w2]; [|apply Hnone].
  destruct (Bytes.decode (stderr q)) as [err_msg|e]; [|apply Hnone].
  destruct (Text.contains _ err_msg).
  { exists [HintMaxFee]. cbn. auto. }
  destruct (Text.contains _ err_msg).
  { exists [HintAccount]. cbn. auto. }
  apply Hnone.
Qed.

(** X13. [run_command] keeps what was logged before it and logs at
    most one hint; it logs a hint only on a run that returns the empty
    string. *)
Theorem run_command_log (c : call) (st : state) :
  exists hints,
    log (run_command spawn GATEWAYS c st).2 = log st ++ hints
    /\ (length hints <= 1)%nat
    /\ (hints <> [] -> (run_command spawn GATEWAYS c st).1 = Ok []).
Proof.
  rewrite run_command_unfold. cbn [fst snd log]. apply invoke_log.
Qed.

(** X14. An exception of a launch is not turned into the empty string:
    when the first launch raises, and when the second launch after a
    non-zero exit code raises, [run_command] raises the same exception
    and logs nothing. *)
Theorem run_command_launch_error (c : call) (st : state) (e : exn) :
  let command := (build GATEWAYS c (environ st)).1 in
  let env := (build GATEWAYS c (environ st)).2 in
  (forall w,
      spawn command env (os st) = (Raise e, w) ->
      (run_command spawn GATEWAYS c st).1 = Raise e
      /\ log (run_command spawn GATEWAYS c st).2 = log st)
  /\ (forall p w w',
        spawn command env (os st) = (Ok p, w) ->
        returncode p <> 0 ->
        spawn command env w = (Raise e, w') ->
        (run_command spawn GATEWAYS c st).1 = Raise e
        /\ log (run_command spawn GATEWAYS c st).2 = log st).
Proof.
  intros command env. rewrite run_command_unfold. fold command env.
  cbn [fst snd log]. unfold invoke. split.
  - intros w ->. auto.
  - intros p w w' -> Hcode%Z.eqb_neq ->. rewrite Hcode. auto.
Qed.

Lemma strip_blank (b : list byte) :
  forallb Bytes.is_space b = true -> Bytes.strip b = [].
Proof.
  intros H. unfold Bytes.strip.
  assert (Bytes.lstrip b = []) as ->; [|reflexivity].
  induction b as [|x b IH]; [reflexivity|].
  cbn [forallb] in H. apply andb_true_iff in H as [Hx Hb].
  cbn [Bytes.lstrip]. rewrite Hx. now apply IH.
Qed.

(** X15. A successful run whose standard output is empty or made of
    blanks only returns the empty string, the value a failed run
    returns: from the result alone the caller cannot tell the two
    apart. *)
Theorem run_command_blank_output (c : call) (st : state) (p : completed) (w : world) :
  spawn (build GATEWAYS c (environ st)).1 (build GATEWAYS c (environ st)).2 (os st)
  = (Ok p, w) ->
  returncode p = 0 ->
  forallb Bytes.is_space (stdout p) = true ->
  (run_command spawn GATEWAYS c st).1 = Ok [].
Proof.
  intros Hspawn Hcode Hblank. rewrite run_command_unfold. cbn [fst snd].
  unfold invoke. rewrite Hspawn, Hcode. cbn [fst Z.eqb].
  now rewrite strip_blank.
Qed.

End RunFacts.

Lemma run_command_blank_output_witness :
  (run_command scripted ∅ sample_call
     (sample_state [Ok {| returncode := 0; stdout := [x20; x0a]; stderr := [] |}])).1
  = Ok [].
Proof.
  exact (run_command_blank_output scripted ∅ sample_call
           (sample_state [Ok {| returncode := 0; stdout := [x20; x0a]; stderr := [] |}])
           {| returncode := 0; stdout := [x20; x0a]; stderr := [] |} []
           eq_refl eq_refl eq_refl).
Defined.

(** X16. With scripted launches, a run whose first launch exits with
    code zero consumes one launch, and a run whose first launch exits
    with another code consumes two: the command is launched a second
    time to read its standard error. *)
Theorem run_command_launches (GATEWAYS : gmap string string) (c : call)
    (p : completed) (script : list (result completed))
    (environ0 : gmap string string) (log0 : list hint) :
  let st := {| environ := environ0; log := log0; os := Ok p :: script |} in
  os (run_command scripted GATEWAYS c st).2
  = if returncode p =? 0 then script else tail script.
Proof.
  intros st. rewrite run_command_unfold. cbn [snd os]. unfold invoke.
  subst st. cbn [os log scripted].
  destruct (returncode p =? 0); [reflexivity|].
  destruct script as [|[q|e] script]; cbn [scripted tail]; try reflexivity.
  now destruct (Bytes.decode (stderr q)).
Qed.

(** ** Network configuration *)

Section ReloadFacts.

Variable json_load : string -> result (gmap string string).

(** X17. Creating the default [node.json] is stable: when [json.load]
    reads the text [json.dumps] wrote back as the mapping it was written
    from, a second call of [get_gateways] on the file system the first one
    left returns the same mapping and writes nothing, and the file system
    the first call leaves differs from the one it found in [node.json]
    only. *)
Theorem get_gateways_reload (files : gmap string string) :
  json_load (Json.dumps_indent2 networks) = Ok (list_to_map networks) ->
  files !! NODE_FILENAME = None ->
  let first := get_gateways json_load files in
  get_gateways json_load first.2 = first
  /\ (forall name, name <> NODE_FILENAME -> first.2 !! name = files !! name).
Proof.
  intros Hload Habsent first. subst first. unfold get_gateways at 2 3 4.
  rewrite Habsent. cbn [fst snd]. split.
  - unfold get_gateways. rewrite lookup_insert_eq. now rewrite Hload.
  - intros name Hname. now rewrite lookup_insert_ne.
Qed.

End ReloadFacts.

Lemma get_gateways_reload_witness :
  get_gateways load_default (get_gateways load_default ∅).2
  = get_gateways load_default ∅.
Proof.
  exact (proj1 (get_gateways_reload load_default ∅ eq_refl eq_refl)).
Defined.

(** ** Contract discovery *)

Section ContractsFacts.

Lemma endswith_spec suffix s :
  endswith suffix s = true <-> exists r, s = r +:+ suffix.
Proof.
  induction s as [|c s IH]; cbn [endswith].
  - destruct (String.eqb_spec "" suffix) as [<-|Hne].
    + split; [now exists ""|reflexivity].
    + split; [discriminate|]. intros [[|] Hr]; [|discriminate].
      now rewrite str_app_nil_l in Hr.
  - destruct (String.eqb_spec (String c s) suffix) as [<-|Hne].
    + split; [now exists ""|reflexivity].
    + rewrite IH. split.
      * intros [r ->]. exists (String c r). reflexivity.
      * intros [[|c' r] Hr].
        -- now rewrite str_app_nil_l in Hr.
        -- rewrite str_app_cons in Hr. injection Hr as _ ->. now exists r.
Qed.

Lemma endswith_path_join suffix a b :
  endswith suffix b = true -> endswith suffix (path_join a b) = true.
Proof.
  intros [r ->]%endswith_spec. apply endswith_spec. unfold path_join.
  destruct (Str.startswith "/" (r +:+ suffix)); [now exists r|].
  destruct (String.eqb a "" || endswith "/" a).
  - exists (a +:+ r). now rewrite str_app_assoc.
  - exists (a +:+ "/" +:+ r). now rewrite !str_app_assoc.
Qed.

Variable walk : string -> list (string * list string * list string).

Lemma get_all_contracts_flat_map (ext directory : option string) :
  get_all_contracts walk ext directory
  = flat_map
      (fun '(dirpath, _, filenames) =>
         map (path_join dirpath)
           (List.filter (endswith (default ".cairo" ext)) filenames))
      (walk (match directory with
             | Some d => if String.eqb d "" then CONTRACTS_DIRECTORY else d
             | None => CONTRACTS_DIRECTORY
             end)).
Proof.
  unfold get_all_contracts.
  set (top := match directory with Some d => _ | None => _ end).
  assert (match ext with Some e => e | None => ".cairo" end = default ".cairo" ext)
    as -> by now destruct ext.
  generalize (walk top). intros l.
  rewrite <- (app_nil_l (flat_map _ l)). generalize (@nil string).
  induction l as [|[[dirpath dirnames] filenames] l IH]; intros acc.
  - cbn. now rewrite app_nil_r.
  - cbn [fold_left flat_map]. rewrite IH. now rewrite <- app_assoc.
Qed.

(** X18. [get_all_contracts] returns exactly the joined paths of the
    files that [os.walk] lists under the directory and whose names end
    with the extension, where the extension is [.cairo] when none is given
    and the directory is [contracts] when none, or the empty text, is
    given. Every path it returns ends with the extension. *)
Theorem get_all_contracts_members (ext directory : option string) (path : string) :
  let suffix := default ".cairo" ext in
  let top :=
    match directory with
    | Some "" | None => "contracts"
    | Some d => d
    end in
  (path ∈ get_all_contracts walk ext directory <->
   exists dirpath dirnames filenames file,
     (dirpath, dirnames, filenames) ∈ walk top
     /\ file ∈ filenames
     /\ endswith suffix file = true
     /\ path = path_join dirpath file)
  /\ (path ∈ get_all_contracts walk ext directory -> endswith suffix path = true).
Proof.
  intros suffix top.
  assert (match directory with
          | Some d => if String.eqb d "" then CONTRACTS_DIRECTORY else d
          | None => CONTRACTS_DIRECTORY
          end = top) as Htop.
  { subst top. destruct directory as [[|c d]|]; reflexivity. }
  assert (path ∈ get_all_contracts walk ext directory <->
          exists dirpath dirnames filenames file,
            (dirpath, dirnames, filenames) ∈ walk top
            /\ file ∈ filenames
            /\ endswith suffix file = true
            /\ path = path_join dirpath file) as Hiff.
  { rewrite get_all_contracts_flat_map, Htop. fold suffix.
    rewrite list_elem_of_In, in_flat_map. split.
    - intros ([[dirpath dirnames] filenames] & Hin & Hpath).
      apply in_map_iff in Hpath as (file & <- & [Hfile Hend]%filter_In).
      exists dirpath, dirnames, filenames, file.
      rewrite !list_elem_of_In. auto.
    - intros (dirpath & dirnames & filenames & file & Hin & Hfile & Hend & ->).
      exists (dirpath, dirnames, filenames). rewrite <- list_elem_of_In.
      split; [exact Hin|]. apply in_map, filter_In.
      rewrite <- list_elem_of_In. auto. }
  split; [exact Hiff|].
  intros (dirpath & dirnames & filenames & file & _ & _ & Hend & ->)%Hiff.
  now apply endswith_path_join.
Qed.

End ContractsFacts.

(** ** Contract classes and their hashes *)

Section ClassHashFacts.

Context {contract_class : Type}.
Variable loads : string -> result contract_class.
Variable compute_class_hash : contract_class -> result Z.
Variable hex_class_hash : Z -> string.
Variable GATEWAYS : gmap string string.

(** X19. The artifact [run_command] names after [--contract] is the file
    [get_contract_class] opens for the same contract name and overriding
    path: the command of a call with a contract name has [--contract] and
    a path as its third and fourth elements, and [get_contract_class]
    returns what [loads] makes of the content of that path, and raises
    [OSError] when there is no such file. *)
Theorem contract_path_agrees (c : call) (name : string)
    (environ : gmap string string) :
  contract_name c = Some name ->
  exists path,
    (build GATEWAYS c environ).1 !! 2%nat = Some (SStr "--contract")
    /\ (build GATEWAYS c environ).1 !! 3%nat = Some (SStr path)
    /\ (forall files,
          get_contract_class loads files name (overriding_path c)
          = match files !! path with
            | Some content => loads content
            | None => Raise OSError
            end).
Proof.
  intros Hname. exists (base_directory c +:+ "/" +:+ name +:+ ".json").
  rewrite build_command, Hname. cbn [part app lookup list_lookup].
  split; [reflexivity|]. split; [reflexivity|].
  intros files. unfold get_contract_class, base_directory.
  now destruct (overriding_path c).
Qed.

(** X20. [get_hash] depends on the file system through the one artifact
    only: two file systems that agree on
    [{base_directory}/{contract_name}.json] give the same result. When the
    artifact is absent, or [loads] raises on its content, [get_hash]
    raises and returns no hash. *)
Theorem get_hash_artifact_only (files : gmap string string) (name : string)
    (overriding_path : option (string * string)) :
  let path :=
    match overriding_path with Some p => p.1 | None => "artifacts" end
    +:+ "/" +:+ name +:+ ".json" in
  (forall files',
      files' !! path = files !! path ->
      get_hash loads compute_class_hash hex_class_hash files' name overriding_path
      = get_hash loads compute_class_hash hex_class_hash files name overriding_path)
  /\ (files !! path = None ->
      get_hash loads compute_class_hash hex_class_hash files name overriding_path
      = Raise OSError)
  /\ (forall content e,
        files !! path = Some content -> loads content = Raise e ->
        get_hash loads compute_class_hash hex_class_hash files name overriding_path
        = Raise e).
Proof.
  intros path.
  assert (forall fs,
    get_contract_class loads fs name overriding_path
    = match fs !! path with
      | Some content => loads content
      | None => Raise OSError
      end) as Hcc.
  { intros fs. unfold get_contract_class. subst path.
    now destruct overriding_path. }
  unfold get_hash. split; [|split].
  - intros files' Hsame. now rewrite !Hcc, Hsame.
  - intros Habsent. now rewrite Hcc, Habsent.
  - intros content e Hfile Hloads. now rewrite Hcc, Hfile, Hloads.
Qed.

End ClassHashFacts.

Lemma contract_path_agrees_witness :
  (build ∅ sample_call ∅).1 !! 3%nat = Some (SStr "artifacts/token.json")
  /\ get_contract_class (fun _ : string => Raise ValueError) ∅ "token" None
     = (Raise OSError : result unit).
Proof.
  destruct (contract_path_agrees (contract_class := unit)
              (fun _ : string => Raise ValueError) ∅
              sample_call "token" ∅ eq_refl) as (path & _ & Hpath & Hcc).
  pose proof Hpath as Hpath'. cbv in Hpath'. injection Hpath' as <-.
  split; [exact Hpath|]. exact (Hcc ∅).
Defined.
